(** * goolm: Curve25519 keys, one-time keys, the AES-SHA256 cipher, pickles

    A shallow embedding of the Go sources

      - [crypto/goolm/crypto/curve25519.go]: [Curve25519KeyPair],
        [Curve25519PrivateKey], [Curve25519PublicKey];
      - [crypto/goolm/crypto/one_time_key.go]: [OneTimeKey];
      - [crypto/goolm/cipher/aes_sha256.go]: [deriveAESKeys], [AESSHA256];
      - package [database], events: the queries for several events,
        [Event.Scan] and the two predicates on events;

    with what they call: the pickle encoder and decoders, the wrappers
    [HMACSHA256] and [HKDFSHA256] and the package [aescbc] of the same
    repository, and, below them, Go's SHA-256, HMAC, HKDF, AES, CBC and
    X25519.

    Conventions.  A Go byte slice is a list of [Byte.byte]; the nil slice
    and the empty slice are both [[]].  A result [(value, error)] is a pair
    whose last component is an [option error], [None] for [nil].  A method
    with a pointer receiver returns the updated receiver next to its
    results.  A method [T.M] is the definition [T_M]. *)

From Stdlib Require Import ZArith List Bool Lia Btauto.
From Stdlib.Strings Require Import Byte.
From Stdlib.Strings Require String Ascii.
Import ListNotations.
Import String.StringSyntax.
Delimit Scope string_scope with string.
Local Open Scope Z_scope.

(* ================================================================== *)
(** ** Bytes *)

Definition bytes := list byte.

Definition Z_of_byte (b : byte) : Z := Z.of_N (Byte.to_N b).

(** Conversion to [uint8]: the low eight bits. *)
Definition byte_of_Z (z : Z) : byte :=
  match Byte.of_N (Z.to_N (z mod 256)) with
  | Some b => b
  | None => x00
  end.

(** [make([]byte, n)] *)
Definition make (n : nat) : bytes := repeat x00 n.

(** [binary.BigEndian.Uint32] and [binary.BigEndian.PutUint32] *)
Definition be_uint32 (b0 b1 b2 b3 : byte) : Z :=
  Z.lor (Z.lor (Z.lor (Z.shiftl (Z_of_byte b0) 24)
                      (Z.shiftl (Z_of_byte b1) 16))
               (Z.shiftl (Z_of_byte b2) 8))
        (Z_of_byte b3).

Definition be32 (v : Z) : bytes :=
  [ byte_of_Z (Z.shiftr v 24); byte_of_Z (Z.shiftr v 16);
    byte_of_Z (Z.shiftr v 8); byte_of_Z v ].

(** [bytes.Equal]: same length and same contents; nil equals empty. *)
Fixpoint bytes_Equal (a b : bytes) : bool :=
  match a, b with
  | [], [] => true
  | x :: a', y :: b' => Byte.eqb x y && bytes_Equal a' b'
  | _, _ => false
  end.

(** Bitwise exclusive or of two bytes. *)
Definition byte_xor (a b : byte) : byte :=
  let '(a0, (a1, (a2, (a3, (a4, (a5, (a6, a7))))))) := Byte.to_bits a in
  let '(b0, (b1, (b2, (b3, (b4, (b5, (b6, b7))))))) := Byte.to_bits b in
  Byte.of_bits (xorb a0 b0, (xorb a1 b1, (xorb a2 b2, (xorb a3 b3,
               (xorb a4 b4, (xorb a5 b5, (xorb a6 b6, xorb a7 b7))))))).

(** [subtle.XORBytes]: as long as the shorter argument. *)
Fixpoint xor_bytes (a b : bytes) : bytes :=
  match a, b with
  | x :: a', y :: b' => byte_xor x y :: xor_bytes a' b'
  | _, _ => []
  end.

(** [s[:hi]] for a slice [s] whose capacity equals its length, as for the
    result of [hash.Sum(nil)]: out of range is a run-time panic, written
    [None]. *)
Definition slice_to (s : bytes) (hi : nat) : option bytes :=
  if (hi <=? length s)%nat then Some (firstn hi s) else None.

(** Go error values that the embedded code can return. *)
Inductive error : Type :=
| TruncatedInputError       (* a pickle shorter than its fields *)   
| ErrEntropyLimit           (* hkdf: entropy limit reached *)
| ErrInvalidPublicKey       (* crypto/ecdh: invalid public key *)
| ErrInvalidPrivateKeySize  (* crypto/ecdh: invalid private key size *)
| ErrLowOrderPoint          (* bad X25519 remote ECDH input: low order point *)
| ErrRandom                 (* crypto/rand: the entropy source failed *)
| EncryptionError           (* aescbc: malformed key or IV length *)
| DecryptionError.          (* aescbc: malformed length or padding *)

(** A Go call either returns or panics at run time. *)
Inductive outcome (A : Type) : Type :=
| Returns (a : A)
| Panics.
Arguments Returns {A} a.
Arguments Panics {A}.

(* ================================================================== *)
(** ** Package libolmpickle *)

Module libolmpickle.

(** Modelled from the spec: the package [crypto/goolm/libolmpickle] is not
    among the sources.  Its encoder is "an accumulating byte sink". *)
Definition Encoder := bytes.

(** Modelled from the spec: the empty sink. *)
Definition NewEncoder : Encoder := [].

(** Modelled from the spec: the bytes accumulated so far. *)
Definition Bytes (p : Encoder) : bytes := p.

(** Modelled from the spec: [pickle] "appends its fixed-width fields, in
    a fixed field order, to an accumulating byte sink". *)
Definition Write (p : Encoder) (b : bytes) : Encoder := p ++ b.

(** Modelled from the spec: "Optional/absent fields are zero-filled to
    their nominal width rather than omitted". *)
Definition WriteEmptyBytes (p : Encoder) (count : nat) : Encoder :=
  Write p (make count).

(** Modelled from the spec: [published] is a "1 byte boolean". *)
Definition WriteBool (p : Encoder) (value : bool) : Encoder :=
  Write p [if value then x01 else x00].

(** Modelled from the spec: [id] takes "4 bytes, big-endian". *)
Definition WriteUInt32 (p : Encoder) (value : Z) : Encoder :=
  Write p (be32 value).

(** Modelled from the spec: absent fields "are encoded as zero-filled
    blocks of the same fixed width", so a field that holds only zero bytes
    stands for an absent value. *)
Definition zero_filled (b : bytes) : bool := forallb (Byte.eqb x00) b.

(** Modelled from the spec: a decoder reads "starting at offset 0 of the
    given slice; returns the number of bytes consumed", and fails "if
    fewer bytes remain than the entity's fixed width requires".  This one
    reads a field of [length] bytes.  A zero-filled field is read back as
    the absent value, nil: the tests [TestEd25519PicklePubKeyOnly] and
    [TestEd25519PicklePrivKeyOnly] of the repository pickle a pair of which
    one half is nil and require the pair that is read back to be equal to
    it, nil half included. *)
Definition UnpickleBytes (value : bytes) (length : nat)
  : bytes * nat * option error :=
  if (List.length value <? length)%nat
  then ([], 0%nat, Some TruncatedInputError)
  else
    let resp := firstn length value in
    if zero_filled resp then ([], length, None) else (resp, length, None).

(** Modelled from the spec: the decoder of [WriteUInt32], 4 bytes,
    big-endian. *)
Definition UnpickleUInt32 (value : bytes) : Z * nat * option error :=
  match value with
  | b0 :: b1 :: b2 :: b3 :: _ => (be_uint32 b0 b1 b2 b3, 4%nat, None)
  | _ => (0, 0%nat, Some TruncatedInputError)
  end.

(** Modelled from the spec: the decoder of [WriteBool], 1 byte; a byte
    other than zero is read as true. *)
Definition UnpickleBool (value : bytes) : bool * nat * option error :=
  match value with
  | b :: _ => (negb (Byte.eqb b x00), 1%nat, None)
  | [] => (false, 0%nat, Some TruncatedInputError)
  end.

End libolmpickle.

(* ================================================================== *)
(** ** Go's crypto/sha256, crypto/hmac and x/crypto/hkdf

    The standard primitives that [crypto.HMACSHA256] and
    [crypto.HKDFSHA256] wrap: SHA-256 (FIPS 180-4) after
    [sha256block.go], HMAC (RFC 2104) and the HKDF reader (RFC 5869). *)

Module sha256.

Definition Size : nat := 32.
Definition BlockSize : nat := 64.
Definition chunk : nat := 64.

(** [uint32] arithmetic. *)
Definition u32 (z : Z) : Z := z mod 2 ^ 32.
Definition add32 (x y : Z) : Z := u32 (x + y).
Definition not32 (x : Z) : Z := Z.lxor x (Z.ones 32).

(** [bits.RotateLeft32(x, -k)] *)
Definition rotr (x k : Z) : Z :=
  Z.lor (Z.shiftr x k) (u32 (Z.shiftl x (32 - k))).

Definition _K : list Z :=
  [ 0x428A2F98; 0x71374491; 0xB5C0FBCF; 0xE9B5DBA5;
    0x3956C25B; 0x59F111F1; 0x923F82A4; 0xAB1C5ED5;
    0xD807AA98; 0x12835B01; 0x243185BE; 0x550C7DC3;
    0x72BE5D74; 0x80DEB1FE; 0x9BDC06A7; 0xC19BF174;
    0xE49B69C1; 0xEFBE4786; 0x0FC19DC6; 0x240CA1CC;
    0x2DE92C6F; 0x4A7484AA; 0x5CB0A9DC; 0x76F988DA;
    0x983E5152; 0xA831C66D; 0xB00327C8; 0xBF597FC7;
    0xC6E00BF3; 0xD5A79147; 0x06CA6351; 0x14292967;
    0x27B70A85; 0x2E1B2138; 0x4D2C6DFC; 0x53380D13;
    0x650A7354; 0x766A0ABB; 0x81C2C92E; 0x92722C85;
    0xA2BFE8A1; 0xA81A664B; 0xC24B8B70; 0xC76C51A3;
    0xD192E819; 0xD6990624; 0xF40E3585; 0x106AA070;
    0x19A4C116; 0x1E376C08; 0x2748774C; 0x34B0BCB5;
    0x391C0CB3; 0x4ED8AA4A; 0x5B9CCA4F; 0x682E6FF3;
    0x748F82EE; 0x78A5636F; 0x84C87814; 0x8CC70208;
    0x90BEFFFA; 0xA4506CEB; 0xBEF9A3F7; 0xC67178F2 ].

Record digest : Type := mkDigest {
  h0 : Z; h1 : Z; h2 : Z; h3 : Z; h4 : Z; h5 : Z; h6 : Z; h7 : Z
}.

Definition init : digest :=
  mkDigest 0x6A09E667 0xBB67AE85 0x3C6EF372 0xA54FF53A
           0x510E527F 0x9B05688C 0x1F83D9AB 0x5BE0CD19.

(** The first [n] big-endian words of [p]. *)
Fixpoint load_words (n : nat) (p : bytes) : list Z :=
  match n, p with
  | S n', b0 :: b1 :: b2 :: b3 :: r =>
      be_uint32 b0 b1 b2 b3 :: load_words n' r
  | _, _ => []
  end.

(** The message schedule, newest word first: the head is [w[i-1]]. *)
Fixpoint schedule (n : nat) (rw : list Z) : list Z :=
  match n with
  | O => rw
  | S n' =>
      let v1 := nth 1 rw 0 in
      let t1 := Z.lxor (Z.lxor (rotr v1 17) (rotr v1 19)) (Z.shiftr v1 10) in
      let v2 := nth 14 rw 0 in
      let t2 := Z.lxor (Z.lxor (rotr v2 7) (rotr v2 18)) (Z.shiftr v2 3) in
      schedule n'
        (add32 (add32 (add32 t1 (nth 6 rw 0)) t2) (nth 15 rw 0) :: rw)
  end.

(** One of the 64 rounds, on the constant [_K[i]] and the word [w[i]]. *)
Definition round (s : digest) (kw : Z * Z) : digest :=
  let '(mkDigest a b c d e f g h) := s in
  let t1 :=
    add32 (add32 (add32 (add32 h
      (Z.lxor (Z.lxor (rotr e 6) (rotr e 11)) (rotr e 25)))
      (Z.lxor (Z.land e f) (Z.land (not32 e) g)))
      (fst kw)) (snd kw) in
  let t2 :=
    add32 (Z.lxor (Z.lxor (rotr a 2) (rotr a 13)) (rotr a 22))
          (Z.lxor (Z.lxor (Z.land a b) (Z.land a c)) (Z.land b c)) in
  mkDigest (add32 t1 t2) a b c (add32 d t1) e f g.

(** The body of [blockGeneric] on one 64-byte chunk. *)
Definition block1 (dig : digest) (p : bytes) : digest :=
  let w := rev (schedule 48 (rev (load_words 16 p))) in
  let s := fold_left round (combine _K w) dig in
  mkDigest (add32 (h0 dig) (h0 s)) (add32 (h1 dig) (h1 s))
           (add32 (h2 dig) (h2 s)) (add32 (h3 dig) (h3 s))
           (add32 (h4 dig) (h4 s)) (add32 (h5 dig) (h5 s))
           (add32 (h6 dig) (h6 s)) (add32 (h7 dig) (h7 s)).

(** [for len(p) >= chunk { ...; p = p[chunk:] }] *)
Fixpoint block_loop (n : nat) (dig : digest) (p : bytes) : digest :=
  match n with
  | O => dig
  | S n' =>
      if (length p <? chunk)%nat then dig
      else block_loop n' (block1 dig (firstn chunk p)) (skipn chunk p)
  end.

Definition blockGeneric (dig : digest) (p : bytes) : digest :=
  block_loop (length p / chunk) dig p.

(** [binary.BigEndian.PutUint64] *)
Definition be64 (v : Z) : bytes := be32 (Z.shiftr v 32) ++ be32 v.

(** The padding of [checkSum]: a 1 bit, zeros up to 56 bytes mod 64, then
    the length in bits. *)
Definition padding (len : nat) : bytes :=
  let t := if (len mod 64 <? 56)%nat then (56 - len mod 64)%nat
           else (64 + 56 - len mod 64)%nat in
  x80 :: make (t - 1) ++ be64 (Z.shiftl (Z.of_nat len) 3 mod 2 ^ 64).

(** [h := sha256.New(); h.Write(data); h.Sum(nil)] *)
Definition Sum256 (data : bytes) : bytes :=
  let d := blockGeneric init (data ++ padding (length data)) in
  be32 (h0 d) ++ be32 (h1 d) ++ be32 (h2 d) ++ be32 (h3 d) ++
  be32 (h4 d) ++ be32 (h5 d) ++ be32 (h6 d) ++ be32 (h7 d).

End sha256.

Module hmac.

(** [copy(pad, key)] into [make([]byte, blocksize)], every byte xored
    with [c]. *)
Definition pad_key (c : byte) (key : bytes) : bytes :=
  map (fun b => byte_xor b c)
      (firstn sha256.BlockSize key ++ make (sha256.BlockSize - length key)).

(** [h := hmac.New(sha256.New, key); h.Write(m); h.Sum(nil)] *)
Definition Sum (key m : bytes) : bytes :=
  let key := if (sha256.BlockSize <? length key)%nat
             then sha256.Sum256 key else key in
  let ipad := pad_key x36 key in
  let opad := pad_key x5c key in
  sha256.Sum256 (opad ++ sha256.Sum256 (ipad ++ m)).

End hmac.

Module hkdf.

(** The reader returned by [hkdf.Expand]; [expander] is the key of its
    HMAC and [counter] a [byte]. *)
Record hkdf : Type := mkHkdf {
  expander : bytes;
  size : nat;
  info : bytes;
  counter : Z;
  prev : bytes;
  buf : bytes
}.

Definition Extract (secret salt : bytes) : bytes :=
  let salt := match salt with
              | [] => make sha256.Size
              | _ => salt
              end in
  hmac.Sum salt secret.

Definition Expand (pseudorandomKey info : bytes) : hkdf :=
  mkHkdf pseudorandomKey sha256.Size info 1 [] [].

Definition New (secret salt info : bytes) : hkdf :=
  Expand (Extract secret salt) info.

(** The loop [for len(p) > 0] of [Read].  [need] bytes of [p] are still to
    be filled, [out] is what has been copied into [p] so far and [n] the
    size of the last copy. *)
Fixpoint fill (fuel : nat) (f : hkdf) (out : bytes) (need n : nat)
  : hkdf * bytes * nat :=
  match fuel with
  | O => (f, out, n)
  | S fuel' =>
      if (0 <? need)%nat then
        let prev := hmac.Sum (expander f)
                      (prev f ++ info f ++ [byte_of_Z (counter f)]) in
        let f := mkHkdf (expander f) (size f) (info f)
                        ((counter f + 1) mod 256) prev prev in
        let n := Nat.min need (length (buf f)) in
        fill fuel' f (out ++ firstn n (buf f)) (need - n) n
      else (f, out, n)
  end.

(** [Read(p)] returns the reader, the new contents of [p] and [(n, err)]. *)
Definition Read (f : hkdf) (p : bytes) : hkdf * bytes * (nat * option error) :=
  let need := length p in
  let remains :=
    (length (buf f) + Z.to_nat ((255 - counter f + 1) mod 256) * size f)%nat in
  if (remains <? need)%nat then (f, p, (0%nat, Some ErrEntropyLimit))
  else
    let n := Nat.min (length p) (length (buf f)) in
    let out := firstn n (buf f) in
    let '(f, out, n) := fill (length p) f out (need - n) n in
    let f := mkHkdf (expander f) (size f) (info f) (counter f) (prev f)
                    (skipn n (buf f)) in
    (f, out, (need, None)).

(** [io.ReadFull(f, buf)]: [Read] either fills [buf] in one call or fails
    having read nothing, so the loop of [io.ReadAtLeast] runs once, and not
    at all for an empty [buf]. *)
Definition ReadFull (f : hkdf) (buf : bytes)
  : hkdf * bytes * (nat * option error) :=
  match buf with
  | [] => (f, buf, (0%nat, None))
  | _ => Read f buf
  end.

End hkdf.

(* ================================================================== *)
(** ** golang.org/x/crypto/curve25519

    [curve25519.X25519], the function of RFC 7748 section 5 that [PubKey]
    and [SharedSecret] call.  It goes through [crypto/ecdh]: both lengths
    are checked, the Montgomery ladder of [x25519ScalarMult] runs over
    field elements modulo 2^255 - 19, and an all-zero result is refused. *)

Module curve25519.

Definition ScalarSize : nat := 32.
Definition PointSize : nat := 32.

Definition p : Z := 2 ^ 255 - 19.

Fixpoint le_decode (b : bytes) : Z :=
  match b with
  | [] => 0
  | x :: r => Z_of_byte x + 256 * le_decode r
  end.

Fixpoint le_encode (n : nat) (z : Z) : bytes :=
  match n with
  | O => []
  | S n' => byte_of_Z z :: le_encode n' (Z.shiftr z 8)
  end.

(** [field.Element]: [SetBytes] ignores the top bit and accepts
    non-canonical values; [Bytes] is the canonical encoding. *)
Definition fe_SetBytes (x : bytes) : Z :=
  Z.land (le_decode x) (Z.ones 255) mod p.
Definition fe_Bytes (v : Z) : bytes := le_encode 32 (v mod p).
Definition fe_Add (a b : Z) : Z := (a + b) mod p.
Definition fe_Subtract (a b : Z) : Z := (a - b) mod p.
Definition fe_Multiply (a b : Z) : Z := (a * b) mod p.
Definition fe_Square (a : Z) : Z := (a * a) mod p.
Definition fe_Mult32 (a c : Z) : Z := (a * c) mod p.
Definition fe_Swap (a b : Z) (cond : bool) : Z * Z :=
  if cond then (b, a) else (a, b).

Fixpoint fe_pow (b : Z) (e : positive) : Z :=
  match e with
  | xH => b mod p
  | xO e' => fe_Square (fe_pow b e')
  | xI e' => fe_Multiply (fe_Square (fe_pow b e')) b
  end.

(** [Invert]: z^(p-2), which sends 0 to 0. *)
Definition fe_Invert (z : Z) : Z := fe_pow z (Z.to_pos (p - 2)).

(** [e[0] &= 248; e[31] &= 127; e[31] |= 64], read little-endian. *)
Definition clamp (scalar : bytes) : Z :=
  Z.lor (Z.land (le_decode scalar) (Z.ones 255 - 7)) (Z.shiftl 1 254).

Record ladder_state : Type := mkLadder {
  x2 : Z; z2 : Z; x3 : Z; z3 : Z; swap : bool
}.

(** One iteration of [for pos := 254; pos >= 0; pos--], on bit [b]. *)
Definition ladder_step (x1 : Z) (b : bool) (s : ladder_state)
  : ladder_state :=
  let swap := xorb (swap s) b in
  let '(x2, x3) := fe_Swap (x2 s) (x3 s) swap in
  let '(z2, z3) := fe_Swap (z2 s) (z3 s) swap in
  let swap := b in
  let tmp0 := fe_Subtract x3 z3 in
  let tmp1 := fe_Subtract x2 z2 in
  let x2 := fe_Add x2 z2 in
  let z2 := fe_Add x3 z3 in
  let z3 := fe_Multiply tmp0 x2 in
  let z2 := fe_Multiply z2 tmp1 in
  let tmp0 := fe_Square tmp1 in
  let tmp1 := fe_Square x2 in
  let x3 := fe_Add z3 z2 in
  let z2 := fe_Subtract z3 z2 in
  let x2 := fe_Multiply tmp1 tmp0 in
  let tmp1 := fe_Subtract tmp1 tmp0 in
  let z2 := fe_Square z2 in
  let z3 := fe_Mult32 tmp1 121666 in
  let x3 := fe_Square x3 in
  let tmp0 := fe_Add tmp0 z3 in
  let z3 := fe_Multiply x1 z2 in
  let z2 := fe_Multiply tmp1 tmp0 in
  mkLadder x2 z2 x3 z3 swap.

Fixpoint ladder_loop (n : nat) (e x1 : Z) (s : ladder_state)
  : ladder_state :=
  match n with
  | O => s
  | S pos =>
      ladder_loop pos e x1 (ladder_step x1 (Z.testbit e (Z.of_nat pos)) s)
  end.

Definition x25519ScalarMult (scalar point : bytes) : bytes :=
  let e := clamp scalar in
  let x1 := fe_SetBytes point in
  let s := ladder_loop 255 e x1 (mkLadder 1 0 x1 1 false) in
  let '(x2, _) := fe_Swap (x2 s) (x3 s) (swap s) in
  let '(z2, _) := fe_Swap (z2 s) (z3 s) (swap s) in
  let z2 := fe_Invert z2 in
  let x2 := fe_Multiply x2 z2 in
  fe_Bytes x2.

Definition Basepoint : bytes := x09 :: make 31.

Definition X25519 (scalar point : bytes) : bytes * option error :=
  if negb (length point =? PointSize)%nat
  then ([], Some ErrInvalidPublicKey)
  else if negb (length scalar =? ScalarSize)%nat
  then ([], Some ErrInvalidPrivateKeySize)
  else
    let out := x25519ScalarMult scalar point in
    if bytes_Equal out (make 32) then ([], Some ErrLowOrderPoint)
    else (out, None).

End curve25519.

(** The ladder of [curve25519.x25519ScalarMult] with the reduction that
    implementations use in place of a division, 2^255 = 19 modulo p.  It
    is proved below to compute the same bytes, and serves to evaluate the
    test vectors. *)

Module x25519fast.

Definition fold (t : Z) : Z :=
  Z.land t (Z.ones 255) + 19 * Z.shiftr t 255.

Definition reduce (x : Z) : Z :=
  if (- curve25519.p <=? x) && (x <? 2 ^ 510) then
    let z := fold (fold x) in
    if curve25519.p <=? z then z - curve25519.p else z
  else x mod curve25519.p.

Definition ladder_step (x1 : Z) (b : bool) (s : curve25519.ladder_state)
  : curve25519.ladder_state :=
  let swap := xorb (curve25519.swap s) b in
  let '(x2, x3) :=
    curve25519.fe_Swap (curve25519.x2 s) (curve25519.x3 s) swap in
  let '(z2, z3) :=
    curve25519.fe_Swap (curve25519.z2 s) (curve25519.z3 s) swap in
  let swap := b in
  let tmp0 := reduce (x3 - z3) in
  let tmp1 := reduce (x2 - z2) in
  let x2 := reduce (x2 + z2) in
  let z2 := reduce (x3 + z3) in
  let z3 := reduce (tmp0 * x2) in
  let z2 := reduce (z2 * tmp1) in
  let tmp0 := reduce (tmp1 * tmp1) in
  let tmp1 := reduce (x2 * x2) in
  let x3 := reduce (z3 + z2) in
  let z2 := reduce (z3 - z2) in
  let x2 := reduce (tmp1 * tmp0) in
  let tmp1 := reduce (tmp1 - tmp0) in
  let z2 := reduce (z2 * z2) in
  let z3 := reduce (tmp1 * 121666) in
  let x3 := reduce (x3 * x3) in
  let tmp0 := reduce (tmp0 + z3) in
  let z3 := reduce (x1 * z2) in
  let z2 := reduce (tmp1 * tmp0) in
  curve25519.mkLadder x2 z2 x3 z3 swap.

Fixpoint ladder_loop (n : nat) (e x1 : Z) (s : curve25519.ladder_state)
  : curve25519.ladder_state :=
  match n with
  | O => s
  | S pos =>
      ladder_loop pos e x1 (ladder_step x1 (Z.testbit e (Z.of_nat pos)) s)
  end.

Fixpoint pow (b : Z) (e : positive) : Z :=
  match e with
  | xH => reduce b
  | xO e' => let r := pow b e' in reduce (r * r)
  | xI e' => let r := pow b e' in reduce (reduce (r * r) * b)
  end.

Definition x25519ScalarMult (scalar point : bytes) : bytes :=
  let e := curve25519.clamp scalar in
  let x1 := curve25519.fe_SetBytes point in
  let s := ladder_loop 255 e x1 (curve25519.mkLadder 1 0 x1 1 false) in
  let '(x2, _) :=
    curve25519.fe_Swap (curve25519.x2 s) (curve25519.x3 s)
                       (curve25519.swap s) in
  let '(z2, _) :=
    curve25519.fe_Swap (curve25519.z2 s) (curve25519.z3 s)
                       (curve25519.swap s) in
  let z2 := pow z2 (Z.to_pos (curve25519.p - 2)) in
  let x2 := reduce (x2 * z2) in
  curve25519.fe_Bytes x2.

Definition X25519 (scalar point : bytes) : bytes * option error :=
  if negb (length point =? curve25519.PointSize)%nat
  then ([], Some ErrInvalidPublicKey)
  else if negb (length scalar =? curve25519.ScalarSize)%nat
  then ([], Some ErrInvalidPrivateKeySize)
  else
    let out := x25519ScalarMult scalar point in
    if bytes_Equal out (make 32) then ([], Some ErrLowOrderPoint)
    else (out, None).

End x25519fast.

(* ================================================================== *)
(** ** Go's crypto/aes and crypto/cipher (CBC)

    AES as FIPS-197 states it, on a state of 16 bytes in input order
    (column by column), and the chaining of CBC mode. *)

Module aes.

Definition BlockSize : nat := 16.

(** The S-box of FIPS-197, figure 7. *)
Definition sbox0 : list byte :=
  [
    x63; x7c; x77; x7b; xf2; x6b; x6f; xc5; x30; x01; x67; x2b; xfe; xd7; xab; x76;
    xca; x82; xc9; x7d; xfa; x59; x47; xf0; xad; xd4; xa2; xaf; x9c; xa4; x72; xc0;
    xb7; xfd; x93; x26; x36; x3f; xf7; xcc; x34; xa5; xe5; xf1; x71; xd8; x31; x15;
    x04; xc7; x23; xc3; x18; x96; x05; x9a; x07; x12; x80; xe2; xeb; x27; xb2; x75;
    x09; x83; x2c; x1a; x1b; x6e; x5a; xa0; x52; x3b; xd6; xb3; x29; xe3; x2f; x84;
    x53; xd1; x00; xed; x20; xfc; xb1; x5b; x6a; xcb; xbe; x39; x4a; x4c; x58; xcf;
    xd0; xef; xaa; xfb; x43; x4d; x33; x85; x45; xf9; x02; x7f; x50; x3c; x9f; xa8;
    x51; xa3; x40; x8f; x92; x9d; x38; xf5; xbc; xb6; xda; x21; x10; xff; xf3; xd2;
    xcd; x0c; x13; xec; x5f; x97; x44; x17; xc4; xa7; x7e; x3d; x64; x5d; x19; x73;
    x60; x81; x4f; xdc; x22; x2a; x90; x88; x46; xee; xb8; x14; xde; x5e; x0b; xdb;
    xe0; x32; x3a; x0a; x49; x06; x24; x5c; xc2; xd3; xac; x62; x91; x95; xe4; x79;
    xe7; xc8; x37; x6d; x8d; xd5; x4e; xa9; x6c; x56; xf4; xea; x65; x7a; xae; x08;
    xba; x78; x25; x2e; x1c; xa6; xb4; xc6; xe8; xdd; x74; x1f; x4b; xbd; x8b; x8a;
    x70; x3e; xb5; x66; x48; x03; xf6; x0e; x61; x35; x57; xb9; x86; xc1; x1d; x9e;
    xe1; xf8; x98; x11; x69; xd9; x8e; x94; x9b; x1e; x87; xe9; xce; x55; x28; xdf;
    x8c; xa1; x89; x0d; xbf; xe6; x42; x68; x41; x99; x2d; x0f; xb0; x54; xbb; x16 ].

(** The inverse S-box, figure 14. *)
Definition sbox1 : list byte :=
  [
    x52; x09; x6a; xd5; x30; x36; xa5; x38; xbf; x40; xa3; x9e; x81; xf3; xd7; xfb;
    x7c; xe3; x39; x82; x9b; x2f; xff; x87; x34; x8e; x43; x44; xc4; xde; xe9; xcb;
    x54; x7b; x94; x32; xa6; xc2; x23; x3d; xee; x4c; x95; x0b; x42; xfa; xc3; x4e;
    x08; x2e; xa1; x66; x28; xd9; x24; xb2; x76; x5b; xa2; x49; x6d; x8b; xd1; x25;
    x72; xf8; xf6; x64; x86; x68; x98; x16; xd4; xa4; x5c; xcc; x5d; x65; xb6; x92;
    x6c; x70; x48; x50; xfd; xed; xb9; xda; x5e; x15; x46; x57; xa7; x8d; x9d; x84;
    x90; xd8; xab; x00; x8c; xbc; xd3; x0a; xf7; xe4; x58; x05; xb8; xb3; x45; x06;
    xd0; x2c; x1e; x8f; xca; x3f; x0f; x02; xc1; xaf; xbd; x03; x01; x13; x8a; x6b;
    x3a; x91; x11; x41; x4f; x67; xdc; xea; x97; xf2; xcf; xce; xf0; xb4; xe6; x73;
    x96; xac; x74; x22; xe7; xad; x35; x85; xe2; xf9; x37; xe8; x1c; x75; xdf; x6e;
    x47; xf1; x1a; x71; x1d; x29; xc5; x89; x6f; xb7; x62; x0e; xaa; x18; xbe; x1b;
    xfc; x56; x3e; x4b; xc6; xd2; x79; x20; x9a; xdb; xc0; xfe; x78; xcd; x5a; xf4;
    x1f; xdd; xa8; x33; x88; x07; xc7; x31; xb1; x12; x10; x59; x27; x80; xec; x5f;
    x60; x51; x7f; xa9; x19; xb5; x4a; x0d; x2d; xe5; x7a; x9f; x93; xc9; x9c; xef;
    xa0; xe0; x3b; x4d; xae; x2a; xf5; xb0; xc8; xeb; xbb; x3c; x83; x53; x99; x61;
    x17; x2b; x04; x7e; xba; x77; xd6; x26; xe1; x69; x14; x63; x55; x21; x0c; x7d ].

Definition sbox (b : byte) : byte := nth (N.to_nat (Byte.to_N b)) sbox0 x00.
Definition inv_sbox (b : byte) : byte :=
  nth (N.to_nat (Byte.to_N b)) sbox1 x00.

(** Multiplication by x in GF(2^8), modulo x^8 + x^4 + x^3 + x + 1. *)
Definition xtime (a : byte) : byte :=
  let '(a0, (a1, (a2, (a3, (a4, (a5, (a6, a7))))))) := Byte.to_bits a in
  Byte.of_bits (a7, (xorb a0 a7, (a1, (xorb a2 a7,
               (xorb a3 a7, (a4, (a5, a6))))))).

Definition mul2 (a : byte) : byte := xtime a.
Definition mul3 (a : byte) : byte := byte_xor (xtime a) a.
Definition mul9 (a : byte) : byte := byte_xor (xtime (xtime (xtime a))) a.
Definition mul11 (a : byte) : byte :=
  byte_xor (byte_xor (xtime (xtime (xtime a))) (xtime a)) a.
Definition mul13 (a : byte) : byte :=
  byte_xor (byte_xor (xtime (xtime (xtime a))) (xtime (xtime a))) a.
Definition mul14 (a : byte) : byte :=
  byte_xor (byte_xor (xtime (xtime (xtime a))) (xtime (xtime a))) (xtime a).

Definition xor4 (a b c d : byte) : byte :=
  byte_xor (byte_xor (byte_xor a b) c) d.

Definition SubBytes (s : bytes) : bytes := map sbox s.
Definition InvSubBytes (s : bytes) : bytes := map inv_sbox s.

Definition ShiftRows (s : bytes) : bytes :=
  match s with
  | [s0; s1; s2; s3; s4; s5; s6; s7; s8; s9; s10; s11; s12; s13; s14; s15] =>
      [s0; s5; s10; s15; s4; s9; s14; s3; s8; s13; s2; s7; s12; s1; s6; s11]
  | _ => s
  end.

Definition InvShiftRows (s : bytes) : bytes :=
  match s with
  | [s0; s1; s2; s3; s4; s5; s6; s7; s8; s9; s10; s11; s12; s13; s14; s15] =>
      [s0; s13; s10; s7; s4; s1; s14; s11; s8; s5; s2; s15; s12; s9; s6; s3]
  | _ => s
  end.

Fixpoint MixColumns (s : bytes) : bytes :=
  match s with
  | a0 :: a1 :: a2 :: a3 :: r =>
      xor4 (mul2 a0) (mul3 a1) a2 a3 ::
      xor4 a0 (mul2 a1) (mul3 a2) a3 ::
      xor4 a0 a1 (mul2 a2) (mul3 a3) ::
      xor4 (mul3 a0) a1 a2 (mul2 a3) :: MixColumns r
  | _ => s
  end.

Fixpoint InvMixColumns (s : bytes) : bytes :=
  match s with
  | a0 :: a1 :: a2 :: a3 :: r =>
      xor4 (mul14 a0) (mul11 a1) (mul13 a2) (mul9 a3) ::
      xor4 (mul9 a0) (mul14 a1) (mul11 a2) (mul13 a3) ::
      xor4 (mul13 a0) (mul9 a1) (mul14 a2) (mul11 a3) ::
      xor4 (mul11 a0) (mul13 a1) (mul9 a2) (mul14 a3) :: InvMixColumns r
  | _ => s
  end.

(** [s[i] ^= w[off + i]] *)
Fixpoint add_key (s w : bytes) (off : nat) : bytes :=
  match s with
  | [] => []
  | b :: s' => byte_xor b (nth off w x00) :: add_key s' w (S off)
  end.

Definition AddRoundKey (s w : bytes) (round : nat) : bytes :=
  add_key s w (16 * round).

Definition RotWord (t : bytes) : bytes :=
  match t with
  | [a; b; c; d] => [b; c; d; a]
  | _ => t
  end.

Definition SubWord (t : bytes) : bytes := map sbox t.

(** The loop of [expandKeyGo] from word [i] on, for [n] words; the words
    are kept newest first, so that the head is [enc[i-1]]. *)
Fixpoint expand (n i nk : nat) (rcon : byte) (rw : list bytes)
  : list bytes :=
  match n with
  | O => rw
  | S n' =>
      let t := nth 0 rw [] in
      let '(t, rcon') :=
        if (i mod nk =? 0)%nat
        then (xor_bytes (SubWord (RotWord t)) [rcon; x00; x00; x00],
              xtime rcon)
        else if (6 <? nk)%nat && (i mod nk =? 4)%nat then (SubWord t, rcon)
        else (t, rcon) in
      expand n' (S i) nk rcon' (xor_bytes (nth (nk - 1) rw []) t :: rw)
  end.

Fixpoint words (n : nat) (key : bytes) : list bytes :=
  match n with
  | O => []
  | S n' => firstn 4 key :: words n' (skipn 4 key)
  end.

(** The expanded key: the number of rounds and the round keys. *)
Record Block : Type := mkBlock { rounds : nat; enc : bytes }.

Definition expandKey (key : bytes) : Block :=
  let nk := (length key / 4)%nat in
  let nr := (nk + 6)%nat in
  mkBlock nr (concat (rev (expand (4 * (nr + 1) - nk) nk nk x01
                                  (rev (words nk key))))).

(** [aes.NewCipher]: [None] is [aes.KeySizeError]. *)
Definition NewCipher (key : bytes) : option Block :=
  match length key with
  | 16%nat | 24%nat | 32%nat => Some (expandKey key)
  | _ => None
  end.

(** Rounds [round], [round + 1], ..., [round + n - 1] of the cipher. *)
Fixpoint enc_rounds (n round : nat) (w s : bytes) : bytes :=
  match n with
  | O => s
  | S n' =>
      enc_rounds n' (S round) w
        (AddRoundKey (MixColumns (ShiftRows (SubBytes s))) w round)
  end.

(** [Block.Encrypt(dst, src)] on one block [src]. *)
Definition Encrypt (c : Block) (src : bytes) : bytes :=
  let s := AddRoundKey src (enc c) 0 in
  let s := enc_rounds (rounds c - 1) 1 (enc c) s in
  AddRoundKey (ShiftRows (SubBytes s)) (enc c) (rounds c).

(** Rounds [n], [n - 1], ..., 1 of the inverse cipher. *)
Fixpoint dec_rounds (n : nat) (w s : bytes) : bytes :=
  match n with
  | O => s
  | S n' =>
      dec_rounds n' w
        (InvMixColumns (AddRoundKey (InvSubBytes (InvShiftRows s)) w n))
  end.

(** [Block.Decrypt(dst, src)] on one block [src]. *)
Definition Decrypt (c : Block) (src : bytes) : bytes :=
  let s := AddRoundKey src (enc c) (rounds c) in
  let s := dec_rounds (rounds c - 1) (enc c) s in
  AddRoundKey (InvSubBytes (InvShiftRows s)) (enc c) 0.

End aes.

Module cbc.

(** [cipher.NewCBCEncrypter(b, iv).CryptBlocks(dst, src)] on [n] blocks. *)
Fixpoint encryptBlocks (n : nat) (b : aes.Block) (iv src : bytes) : bytes :=
  match n with
  | O => []
  | S n' =>
      let c := aes.Encrypt b (xor_bytes (firstn aes.BlockSize src) iv) in
      c ++ encryptBlocks n' b c (skipn aes.BlockSize src)
  end.

(** [cipher.NewCBCDecrypter(b, iv).CryptBlocks(dst, src)] on [n] blocks. *)
Fixpoint decryptBlocks (n : nat) (b : aes.Block) (iv src : bytes) : bytes :=
  match n with
  | O => []
  | S n' =>
      let c := firstn aes.BlockSize src in
      xor_bytes (aes.Decrypt b c) iv
        ++ decryptBlocks n' b c (skipn aes.BlockSize src)
  end.

End cbc.

(* ================================================================== *)
(** ** Package aescbc *)

Module pkcs7.

(** Modelled from the spec: the padding used by the missing package
    [crypto/aescbc], "a standard reversible padding scheme" to the cipher
    block size, that is PKCS#7: [padding] bytes of value [padding], at
    least one. *)
Definition Pad (data : bytes) (blockSize : nat) : bytes :=
  let padding := (blockSize - length data mod blockSize)%nat in
  data ++ repeat (byte_of_Z (Z.of_nat padding)) padding.

(** Modelled from the spec: the inverse of [Pad]; [None] is the "invalid
    padding" on which decryption fails. *)
Definition Unpad (data : bytes) : option bytes :=
  let length := List.length data in
  let unpadding := Z.to_nat (Z_of_byte (last data x00)) in
  if (unpadding =? 0)%nat || (length <? unpadding)%nat then None
  else if bytes_Equal (skipn (length - unpadding) data)
                      (repeat (last data x00) unpadding)
  then Some (firstn (length - unpadding) data)
  else None.

End pkcs7.

Module aescbc.

(** Modelled from the spec: [aescbc.Encrypt] is not among the sources.
    It is to "apply block-cipher encryption in chained-block mode with the
    derived key and IV; plaintext is padded to the cipher block size", and
    fails "for a malformed key length". *)
Definition Encrypt (key iv plaintext : bytes) : bytes * option error :=
  if negb (length iv =? aes.BlockSize)%nat then ([], Some EncryptionError)
  else
    match aes.NewCipher key with
    | None => ([], Some EncryptionError)
    | Some block =>
        let plaintext := pkcs7.Pad plaintext aes.BlockSize in
        (cbc.encryptBlocks (length plaintext / aes.BlockSize)
                           block iv plaintext, None)
    end.

(** Modelled from the spec: [aescbc.Decrypt] is not among the sources.
    It is the "inverse of encrypt; fails with DecryptionError on invalid
    padding or invalid ciphertext length (not a multiple of the block
    size)". *)
Definition Decrypt (key iv ciphertext : bytes) : bytes * option error :=
  if negb (length iv =? aes.BlockSize)%nat then ([], Some DecryptionError)
  else
    match aes.NewCipher key with
    | None => ([], Some DecryptionError)
    | Some block =>
        if negb (length ciphertext mod aes.BlockSize =? 0)%nat
        then ([], Some DecryptionError)
        else
          match pkcs7.Unpad
                  (cbc.decryptBlocks (length ciphertext / aes.BlockSize)
                                     block iv ciphertext) with
          | Some plaintext => (plaintext, None)
          | None => ([], Some DecryptionError)
          end
    end.

End aescbc.

(* ================================================================== *)
(** ** Go's crypto/rand

    The entropy source is an explicit argument: a stream that fills the
    buffer, or a source that fails. *)

Module rand.

Inductive Source : Type :=
| Entropy (r : nat -> byte)
| Broken.

Definition Read (src : Source) (b : bytes) : bytes * (nat * option error) :=
  match src with
  | Entropy r => (map r (seq 0 (length b)), (length b, None))
  | Broken => (b, (0%nat, Some ErrRandom))
  end.

End rand.

(* ================================================================== *)
(** ** Go's encoding/base64

    [RawStdEncoding], the standard alphabet of RFC 4648 without padding,
    after [Encoding.Encode] of the Go library. *)

Module base64.

(** The alphabet of [base64.StdEncoding] (RFC 4648, section 4). *)
Definition encodeStd : bytes :=
  String.list_byte_of_string
    "ABCDEFGHIJKLMNOPQRSTUVWXYZabcdefghijklmnopqrstuvwxyz0123456789+/".

(** [enc.encode[val>>shift&0x3F]] *)
Definition sextet (val shift : Z) : byte :=
  nth (Z.to_nat (Z.land (Z.shiftr val shift) 63)) encodeStd x00.

(** [Encoding.Encode] for [RawStdEncoding] (no padding character): the loop
    over whole groups of three bytes, then the one or two bytes that
    remain. *)
Fixpoint Encode (src : bytes) : bytes :=
  match src with
  | [] => []
  | [b0] =>
      let val := Z.shiftl (Z_of_byte b0) 16 in
      [sextet val 18; sextet val 12]
  | [b0; b1] =>
      let val := Z.lor (Z.shiftl (Z_of_byte b0) 16)
                       (Z.shiftl (Z_of_byte b1) 8) in
      [sextet val 18; sextet val 12; sextet val 6]
  | b0 :: b1 :: b2 :: rest =>
      let val := Z.lor (Z.lor (Z.shiftl (Z_of_byte b0) 16)
                              (Z.shiftl (Z_of_byte b1) 8))
                       (Z_of_byte b2) in
      sextet val 18 :: sextet val 12 :: sextet val 6 :: sextet val 0
        :: Encode rest
  end.

(** [Encoding.EncodedLen] without padding. *)
Definition EncodedLen (n : nat) : nat :=
  (n / 3 * 4 + (n mod 3 * 8 + 5) / 6)%nat.

(** [RawStdEncoding.EncodeToString]; a Go string is its bytes. *)
Definition EncodeToString (src : bytes) : bytes := Encode src.

(** The place of a character in the alphabet. *)
Fixpoint index (c : byte) (alphabet : bytes) : nat :=
  match alphabet with
  | [] => 0
  | x :: rest => if Byte.eqb x c then 0 else S (index c rest)
  end.

End base64.

(* ================================================================== *)
(** ** Package crypto: Curve25519 keys and one-time keys *)

Module crypto.

(** Modelled from the spec: [crypto.HMACSHA256] (hmac.go) is not among the
    sources.  It is the "keyed hash (HMAC with the cipher's underlying hash
    function) over [message]" that "returns the full-length tag". *)
Definition HMACSHA256 (key input : bytes) : bytes := hmac.Sum key input.

(** Modelled from the spec: [crypto.HKDFSHA256] (hmac.go) is not among the
    sources.  It is the "key-derivation function call over the master
    secret with a context/info string" and a salt, "producing an ... output
    stream", here the reader of [hkdf.New]. *)
Definition HKDFSHA256 (input salt info : bytes) : hkdf.hkdf :=
  hkdf.New input salt info.

Definition Curve25519PrivateKeyLength : nat := curve25519.ScalarSize.
Definition Curve25519PublicKeyLength : nat := 32.

Definition Curve25519PrivateKey := bytes.
Definition Curve25519PublicKey := bytes.

Record Curve25519KeyPair : Type := mkCurve25519KeyPair {
  PrivateKey : Curve25519PrivateKey;
  PublicKey : Curve25519PublicKey
}.

Definition Curve25519PrivateKey_Equal (c x : Curve25519PrivateKey) : bool :=
  bytes_Equal c x.

Definition Curve25519PrivateKey_PubKey (c : Curve25519PrivateKey)
  : Curve25519PublicKey * option error :=
  curve25519.X25519 c curve25519.Basepoint.

Definition Curve25519PrivateKey_SharedSecret
  (c : Curve25519PrivateKey) (pubKey : Curve25519PublicKey)
  : bytes * option error :=
  curve25519.X25519 c pubKey.

Definition Curve25519KeyPair_SharedSecret
  (c : Curve25519KeyPair) (pubKey : Curve25519PublicKey)
  : bytes * option error :=
  Curve25519PrivateKey_SharedSecret (PrivateKey c) pubKey.

Definition Curve25519GenerateKey (src : rand.Source)
  : Curve25519KeyPair * option error :=
  let privateKeyByte := make Curve25519PrivateKeyLength in
  let '(privateKeyByte, (_, err)) := rand.Read src privateKeyByte in
  match err with
  | Some e => (mkCurve25519KeyPair [] [], Some e)
  | None =>
      let privateKey := privateKeyByte in
      let '(publicKey, err) := Curve25519PrivateKey_PubKey privateKey in
      (mkCurve25519KeyPair privateKey publicKey, err)
  end.

Definition Curve25519GenerateFromPrivate (private : Curve25519PrivateKey)
  : Curve25519KeyPair * option error :=
  let '(publicKey, err) := Curve25519PrivateKey_PubKey private in
  match err with
  | Some e => (mkCurve25519KeyPair [] [], Some e)
  | None => (mkCurve25519KeyPair private publicKey, None)
  end.

Definition Curve25519PublicKey_Equal (c x : Curve25519PublicKey) : bool :=
  bytes_Equal c x.

Definition Curve25519PublicKey_PickleLibOlm
  (c : Curve25519PublicKey) (encoder : libolmpickle.Encoder)
  : libolmpickle.Encoder :=
  if (List.length c =? Curve25519PublicKeyLength)%nat
  then libolmpickle.Write encoder c
  else libolmpickle.WriteEmptyBytes encoder Curve25519PublicKeyLength.

Definition Curve25519PublicKey_UnpickleLibOlm
  (c : Curve25519PublicKey) (value : bytes)
  : Curve25519PublicKey * (nat * option error) :=
  let '(unpickled, readBytes, err) :=
    libolmpickle.UnpickleBytes value Curve25519PublicKeyLength in
  match err with
  | Some e => (c, (0%nat, Some e))
  | None => (unpickled, (readBytes, None))
  end.

Definition Curve25519KeyPair_PickleLibOlm
  (c : Curve25519KeyPair) (encoder : libolmpickle.Encoder)
  : libolmpickle.Encoder :=
  let encoder := Curve25519PublicKey_PickleLibOlm (PublicKey c) encoder in
  if (List.length (PrivateKey c) =? Curve25519PrivateKeyLength)%nat
  then libolmpickle.Write encoder (PrivateKey c)
  else libolmpickle.WriteEmptyBytes encoder Curve25519PrivateKeyLength.

Definition Curve25519KeyPair_UnpickleLibOlm
  (c : Curve25519KeyPair) (value : bytes)
  : Curve25519KeyPair * (nat * option error) :=
  let '(pub, (read, err)) :=
    Curve25519PublicKey_UnpickleLibOlm (PublicKey c) value in
  let c := mkCurve25519KeyPair (PrivateKey c) pub in
  match err with
  | Some e => (c, (0%nat, Some e))
  | None =>
      let '(privKey, readPriv, err) :=
        libolmpickle.UnpickleBytes (skipn read value)
                                   Curve25519PrivateKeyLength in
      match err with
      | Some e => (c, (read, Some e))
      | None => (mkCurve25519KeyPair privKey (PublicKey c),
                 ((read + readPriv)%nat, None))
      end
  end.

Record OneTimeKey : Type := mkOneTimeKey {
  ID : Z;                       (* uint32 *)
  Published : bool;
  Key : Curve25519KeyPair
}.

Definition OneTimeKey_Equal (otk s : OneTimeKey) : bool :=
  if negb (ID otk =? ID s) then false
  else if negb (Bool.eqb (Published otk) (Published s)) then false
  else if negb (Curve25519PrivateKey_Equal (PrivateKey (Key otk))
                                           (PrivateKey (Key s))) then false
  else if negb (Curve25519PublicKey_Equal (PublicKey (Key otk))
                                          (PublicKey (Key s))) then false
  else true.

Definition OneTimeKey_PickleLibOlm
  (c : OneTimeKey) (encoder : libolmpickle.Encoder) : libolmpickle.Encoder :=
  let encoder := libolmpickle.WriteUInt32 encoder (ID c) in
  let encoder := libolmpickle.WriteBool encoder (Published c) in
  Curve25519KeyPair_PickleLibOlm (Key c) encoder.

Definition OneTimeKey_UnpickleLibOlm (c : OneTimeKey) (value : bytes)
  : OneTimeKey * (nat * option error) :=
  let totalReadBytes := 0%nat in
  let '(id, readBytes, err) := libolmpickle.UnpickleUInt32 value in
  match err with
  | Some e => (c, (0%nat, Some e))
  | None =>
      let totalReadBytes := (totalReadBytes + readBytes)%nat in
      let c := mkOneTimeKey id (Published c) (Key c) in
      let '(published, readBytes, err) :=
        libolmpickle.UnpickleBool (skipn totalReadBytes value) in
      match err with
      | Some e => (c, (0%nat, Some e))
      | None =>
          let totalReadBytes := (totalReadBytes + readBytes)%nat in
          let c := mkOneTimeKey (ID c) published (Key c) in
          let '(key, (readBytes, err)) :=
            Curve25519KeyPair_UnpickleLibOlm
              (Key c) (skipn totalReadBytes value) in
          let c := mkOneTimeKey (ID c) (Published c) key in
          match err with
          | Some e => (c, (0%nat, Some e))
          | None => (c, ((totalReadBytes + readBytes)%nat, None))
          end
      end
  end.

(** *** Encoded identifiers

    The result type [id.Curve25519] is a Go string, here its bytes. *)

(** [Curve25519PublicKey.B64Encoded] *)
Definition Curve25519PublicKey_B64Encoded (c : bytes) : bytes :=
  base64.EncodeToString c.

(** [Curve25519KeyPair.B64Encoded] *)
Definition Curve25519KeyPair_B64Encoded (c : Curve25519KeyPair) : bytes :=
  Curve25519PublicKey_B64Encoded (PublicKey c).

(** [OneTimeKey.KeyIDEncoded] *)
Definition OneTimeKey_KeyIDEncoded (c : OneTimeKey) : bytes :=
  let resSlice := be32 (ID c) in
  base64.EncodeToString resSlice.

(** [OneTimeKey.PublicKeyEncoded] *)
Definition OneTimeKey_PublicKeyEncoded (c : OneTimeKey) : bytes :=
  Curve25519PublicKey_B64Encoded (PublicKey (Key c)).

End crypto.

(* ================================================================== *)
(** ** Package cipher: AES-SHA256 *)

Module cipher.

Record derivedAESKeys : Type := mkDerivedAESKeys {
  key : bytes;
  hmacKey : bytes;
  iv : bytes
}.

Definition deriveAESKeys (kdfInfo key : bytes)
  : derivedAESKeys * option error :=
  let hkdf := crypto.HKDFSHA256 key [] kdfInfo in
  let keymatter := make 80 in
  let '(_, keymatter, (_, err)) := hkdf.ReadFull hkdf keymatter in
  (mkDerivedAESKeys (firstn 32 keymatter)
                    (firstn (64 - 32) (skipn 32 keymatter))
                    (skipn 64 keymatter),
   err).

Record AESSHA256 : Type := mkAESSHA256 { kdfInfo : bytes }.

Definition NewAESSHA256 (kdfInfo : bytes) : AESSHA256 :=
  mkAESSHA256 kdfInfo.

Definition AESSHA256_Encrypt (c : AESSHA256) (key plaintext : bytes)
  : bytes * option error :=
  let '(keys, err) := deriveAESKeys (kdfInfo c) key in
  match err with
  | Some e => ([], Some e)
  | None => aescbc.Encrypt (cipher.key keys) (iv keys) plaintext
  end.

Definition AESSHA256_Decrypt (c : AESSHA256) (key ciphertext : bytes)
  : bytes * option error :=
  let '(keys, err) := deriveAESKeys (kdfInfo c) key in
  match err with
  | Some e => ([], Some e)
  | None => aescbc.Decrypt (cipher.key keys) (iv keys) ciphertext
  end.

Definition AESSHA256_MAC (c : AESSHA256) (key message : bytes)
  : bytes * option error :=
  let '(keys, err) := deriveAESKeys (kdfInfo c) key in
  match err with
  | Some e => ([], Some e)
  | None => (crypto.HMACSHA256 (hmacKey keys) message, None)
  end.

(** [mac[:len(givenMAC)]] panics when [givenMAC] is longer than [mac]. *)
Definition AESSHA256_Verify (c : AESSHA256) (key message givenMAC : bytes)
  : outcome (bool * option error) :=
  let '(mac, err) := AESSHA256_MAC c key message in
  match err with
  | Some e => Returns (false, Some e)
  | None =>
      match slice_to mac (length givenMAC) with
      | Some prefix => Returns (bytes_Equal givenMAC prefix, None)
      | None => Panics
      end
  end.

End cipher.

(* ================================================================== *)
(** ** Go's strings *)

Module strings.

(** [strings.Repeat] for a count that is not negative. *)
Fixpoint Repeat (s : String.string) (count : nat) : String.string :=
  match count with
  | O => String.EmptyString
  | S n => String.append s (Repeat s n)
  end.

(** [s[:hi]] for a string [s]: a bound below zero or beyond the length is
    a run-time panic. *)
Definition slice_to (s : String.string) (hi : Z) : outcome String.string :=
  if (hi <? 0) || (Z.of_nat (String.length s) <? hi) then Panics
  else Returns (String.substring 0 (Z.to_nat hi) s).

End strings.

(* ================================================================== *)
(** ** Package database: events *)

Module database.

(** A [map] with string keys as the list of its entries, in the order in
    which [range] visits them. *)
Definition smap (V : Type) : Type := list (String.string * V).

Fixpoint lookup {V : Type} (m : smap V) (k : String.string) : option V :=
  match m with
  | [] => None
  | (k', v) :: rest => if String.eqb k' k then Some v else lookup rest k
  end.

Fixpoint store {V : Type} (m : smap V) (k : String.string) (v : V) : smap V :=
  match m with
  | [] => [(k, v)]
  | (k', v') :: rest =>
      if String.eqb k' k then (k, v) :: rest else (k', v') :: store rest k v
  end.

Definition EventRowID := Z.

(** [Event]; [Timestamp] in milliseconds since the epoch, a
    [json.RawMessage] or map that is nil as [None]. *)
Record Event : Type := mkEvent {
  RowID : EventRowID;
  TimelineRowID : Z;
  RoomID : String.string;
  ID : String.string;
  Sender : String.string;
  Type_ : String.string;
  StateKey : option String.string;
  Timestamp : Z;
  Content : option bytes;
  Decrypted : option bytes;
  DecryptedType : String.string;
  Unsigned : option bytes;
  RedactedBy : String.string;
  RelatesTo : String.string;
  RelationType : String.string;
  MegolmSessionID : String.string;
  DecryptionError : String.string;
  Reactions : option (smap Z);
  LastEditRowID : EventRowID
}.

(** [e.Reactions = v] and [e.LastEditRowID = v] *)
Definition set_Reactions (e : Event) (v : option (smap Z)) : Event :=
  mkEvent (RowID e) (TimelineRowID e) (RoomID e) (ID e) (Sender e) (Type_ e)
    (StateKey e) (Timestamp e) (Content e) (Decrypted e) (DecryptedType e)
    (Unsigned e) (RedactedBy e) (RelatesTo e) (RelationType e)
    (MegolmSessionID e) (DecryptionError e) v (LastEditRowID e).

Definition set_LastEditRowID (e : Event) (v : EventRowID) : Event :=
  mkEvent (RowID e) (TimelineRowID e) (RoomID e) (ID e) (Sender e) (Type_ e)
    (StateKey e) (Timestamp e) (Content e) (Decrypted e) (DecryptedType e)
    (Unsigned e) (RedactedBy e) (RelatesTo e) (RelationType e)
    (MegolmSessionID e) (DecryptionError e) (Reactions e) v.

(** [sql.NullString] and [sql.NullInt64] *)
Record NullString : Type := mkNullString { String_ : String.string;
                                           Valid : bool }.
Record NullInt64 : Type := mkNullInt64 { Int64 : Z; Valid64 : bool }.

(** What the nineteen destinations of [row.Scan] in [Event.Scan] hold after
    it returned without error, in the order of the call. *)
Record Scanned : Type := mkScanned {
  c_rowid : EventRowID;
  c_timeline_rowid : Z;
  c_room_id : String.string;
  c_event_id : String.string;
  c_sender : String.string;
  c_type : String.string;
  c_state_key : option String.string;
  c_timestamp : Z;
  c_content : option bytes;
  c_decrypted : option bytes;
  c_decrypted_type : NullString;
  c_unsigned : option bytes;
  c_redacted_by : NullString;
  c_relates_to : NullString;
  c_relation_type : NullString;
  c_megolm_session_id : NullString;
  c_decryption_error : NullString;
  c_reactions : option (smap Z);
  c_last_edit_rowid : NullInt64
}.

(** Values passed as [any] to the query helpers. *)
Inductive any : Type :=
| AnyString (s : String.string)
| AnyInt (z : Z)
| AnyJSON (m : option (smap Z)).

(** [*Event]: nil or the address of an event; the events live in a heap. *)
Definition ptr := option nat.
Definition heap := nat -> Event.

Definition assign (h : heap) (a : nat) (e : Event) : heap :=
  fun b => if Nat.eqb b a then e else h b.

(** [s[i] = v] for a slice: an index beyond the length is a run-time
    panic. *)
Definition index_set {A : Type} (s : list A) (i : nat) (v : A)
  : outcome (list A) :=
  if (i <? length s)%nat
  then Returns (firstn i s ++ v :: skipn (S i) s)
  else Panics.

(** [GetReactionsResult]; the events it points to are not shared with the
    caller's. *)
Record GetReactionsResult : Type := mkGetReactionsResult {
  Events : list Event;
  Counts : option (smap Z)
}.

(** The queries, as the source spells them. *)
Definition getEventBaseQuery : String.string := "
		SELECT rowid, -1, room_id, event_id, sender, type, state_key, timestamp, content, decrypted, decrypted_type, unsigned,
		       redacted_by, relates_to, relation_type, megolm_session_id, decryption_error, reactions, last_edit_rowid
		FROM event
	"%string.

Definition getEventReactionsQuery : String.string :=
  String.append getEventBaseQuery "
		WHERE room_id = ?
		  AND type = 'm.reaction'
		  AND relation_type = 'm.annotation'
		  AND redacted_by IS NULL
		  AND relates_to IN (%s)
	"%string.

Definition getEventEditRowIDsQuery : String.string := "
		SELECT main.event_id, edit.rowid
		FROM event main
		JOIN event edit ON
			edit.room_id = main.room_id
			AND edit.relates_to = main.event_id
			AND edit.relation_type = 'm.replace'
		AND edit.type = main.type
		AND edit.sender = main.sender
		AND edit.redacted_by IS NULL
		WHERE main.event_id IN (%s)
		ORDER BY main.event_id, edit.timestamp
	"%string.

Definition setLastEditRowIDQuery : String.string := "
		UPDATE event SET last_edit_rowid = $2 WHERE event_id = $1
	"%string.

Definition updateReactionCountsQuery : String.string :=
  "UPDATE event SET reactions = $2 WHERE event_id = $1"%string.

Section Queries.

(** What this code calls and does not define: the constants of package
    [event], [fmt.Sprintf] with one argument, [gjson.GetBytes] at the path
    of the reaction key (the string found, if a string is found), and the
    database behind [dbutil]: a state [DB] that [Exec], [QueryMany] and
    [Query] read and change and an error type; [Query] stands for the query
    with the row iterator up to its end or first error.  [DoTxn] runs, or
    does not run, the function that it is given on the database and on
    what that function captures, the pair [st]. *)
Variable EventMessage EventSticker EventEncrypted RelReplace : String.string.
Variable Sprintf : String.string -> String.string -> String.string.
Variable reactionKey : option bytes -> option String.string.
Variable DB : Type.
Variable dberror : Type.
Variable Exec :
  DB -> String.string -> list any -> outcome (DB * option dberror).
Variable QueryMany :
  DB -> String.string -> list any
  -> outcome (DB * (list Event * option dberror)).
Variable Query :
  DB -> String.string -> list any
  -> outcome (DB * (list (String.string * EventRowID) * option dberror)).
Variable DoTxn :
  forall S : Type,
    (DB * S -> outcome (DB * S * option dberror)) -> DB * S
    -> outcome (DB * S * option dberror).

(** [buildMultiEventGetFunction] *)
Definition buildMultiEventGetFunction (roomID : String.string)
    (eventIDs : list String.string) (query : String.string)
  : outcome (String.string * list any) :=
  let params := AnyString roomID :: map AnyString eventIDs in
  let placeholders := strings.Repeat "?,"%string (length eventIDs) in
  match strings.slice_to placeholders
          (Z.of_nat (String.length placeholders) - 1) with
  | Panics => Panics
  | Returns placeholders => Returns (Sprintf query placeholders, params)
  end.

(** [EventQuery.GetEditRowIDs]: the rows are grouped by event, in the order
    of the rows. *)
Definition GetEditRowIDs (db : DB) (roomID : String.string)
    (eventIDs : list String.string)
  : outcome (DB * (smap (list EventRowID) * option dberror)) :=
  match buildMultiEventGetFunction roomID eventIDs getEventEditRowIDsQuery with
  | Panics => Panics
  | Returns (query, params) =>
      match Query db query params with
      | Panics => Panics
      | Returns (db', (rows, err)) =>
          let output :=
            fold_left
              (fun output tuple =>
                 let old := match lookup output (fst tuple) with
                            | Some l => l
                            | None => []
                            end in
                 store output (fst tuple) (old ++ [snd tuple]))
              rows [] in
          Returns (db', (output, err))
      end
  end.

(** The first loop of the function given to [DoTxn] in [GetReactions]. *)
Fixpoint count_reactions (events : list Event)
    (result : smap GetReactionsResult) : outcome (smap GetReactionsResult) :=
  match events with
  | [] => Returns result
  | evt :: rest =>
      match lookup result (RelatesTo evt) with
      | None => Panics
      | Some dest =>
          let events' := Events dest ++ [evt] in
          match reactionKey (Content evt) with
          | Some key =>
              match Counts dest with
              | None => Panics
              | Some counts =>
                  let n := match lookup counts key with
                           | Some n => n
                           | None => 0
                           end in
                  count_reactions rest
                    (store result (RelatesTo evt)
                       (mkGetReactionsResult events'
                          (Some (store counts key (n + 1)))))
              end
          | None =>
              count_reactions rest
                (store result (RelatesTo evt)
                   (mkGetReactionsResult events' (Counts dest)))
          end
      end
  end.

(** Its second loop. *)
Fixpoint update_counts (db : DB) (entries : smap GetReactionsResult)
  : outcome (DB * option dberror) :=
  match entries with
  | [] => Returns (db, None)
  | (evtID, res) :: rest =>
      match Counts res with
      | Some (_ :: _) =>
          match Exec db updateReactionCountsQuery
                  [AnyString evtID; AnyJSON (Counts res)] with
          | Panics => Panics
          | Returns (db', Some err) => Returns (db', Some err)
          | Returns (db', None) => update_counts db' rest
          end
      | _ => update_counts db rest
      end
  end.

(** [EventQuery.GetReactions] *)
Definition GetReactions (db : DB) (roomID : String.string)
    (eventIDs : list String.string)
  : outcome (DB * (smap GetReactionsResult * option dberror)) :=
  let result :=
    fold_left
      (fun result evtID =>
         store result evtID (mkGetReactionsResult [] (Some [])))
      eventIDs [] in
  match
    DoTxn (smap GetReactionsResult)
      (fun st =>
         match buildMultiEventGetFunction roomID eventIDs
                 getEventReactionsQuery with
         | Panics => Panics
         | Returns (query, params) =>
             match QueryMany (fst st) query params with
             | Panics => Panics
             | Returns (db, (_, Some err)) => Returns (db, snd st, Some err)
             | Returns (db, ([], None)) => Returns (db, snd st, None)
             | Returns (db, (events, None)) =>
                 match count_reactions events (snd st) with
                 | Panics => Panics
                 | Returns result =>
                     match update_counts db result with
                     | Panics => Panics
                     | Returns (db, err) => Returns (db, result, err)
                     end
                 end
             end
         end)
      (db, result)
  with
  | Panics => Panics
  | Returns (db, result, err) => Returns (db, (result, err))
  end.

(** The loop of [FillReactionCounts] over the events. *)
Fixpoint reactions_missing (h : heap) (events : list ptr) (i : nat)
    (eventIDs : list String.string) (eventMap : smap nat)
  : outcome (list String.string * smap nat) :=
  match events with
  | [] => Returns (eventIDs, eventMap)
  | None :: _ => Panics
  | Some a :: rest =>
      match Reactions (h a) with
      | None =>
          match index_set eventIDs i (ID (h a)) with
          | Panics => Panics
          | Returns eventIDs =>
              reactions_missing h rest (S i) eventIDs
                (store eventMap (ID (h a)) a)
          end
      | Some _ => reactions_missing h rest (S i) eventIDs eventMap
      end
  end.

(** Its loop over the result. *)
Fixpoint set_reactions (h : heap) (eventMap : smap nat)
    (result : smap GetReactionsResult) : outcome heap :=
  match result with
  | [] => Returns h
  | (evtID, res) :: rest =>
      match lookup eventMap evtID with
      | None => Panics
      | Some a =>
          set_reactions (assign h a (set_Reactions (h a) (Counts res)))
            eventMap rest
      end
  end.

(** [EventQuery.FillReactionCounts] *)
Definition FillReactionCounts (db : DB) (h : heap) (roomID : String.string)
    (events : list ptr) : outcome (DB * heap * option dberror) :=
  match reactions_missing h events 0 [] [] with
  | Panics => Panics
  | Returns (eventIDs, eventMap) =>
      match GetReactions db roomID eventIDs with
      | Panics => Panics
      | Returns (db, (_, Some err)) => Returns (db, h, Some err)
      | Returns (db, (result, None)) =>
          match set_reactions h eventMap result with
          | Panics => Panics
          | Returns h => Returns (db, h, None)
          end
      end
  end.

(** The loop of [FillLastEditRowIDs] over the events. *)
Fixpoint edits_missing (h : heap) (events : list ptr) (i : nat)
    (eventIDs : list String.string) (eventMap : smap nat)
  : outcome (list String.string * smap nat) :=
  match events with
  | [] => Returns (eventIDs, eventMap)
  | None :: _ => Panics
  | Some a :: rest =>
      if LastEditRowID (h a) =? 0
      then match index_set eventIDs i (ID (h a)) with
           | Panics => Panics
           | Returns eventIDs =>
               edits_missing h rest (S i) eventIDs
                 (store eventMap (ID (h a)) a)
           end
      else edits_missing h rest (S i) eventIDs eventMap
  end.

(** Its loop over the result, inside the transaction. *)
Fixpoint set_last_edits (db : DB) (h : heap) (eventMap : smap nat)
    (result : smap (list EventRowID))
  : outcome (DB * heap * option dberror) :=
  match result with
  | [] => Returns (db, h, None)
  | (evtID, res) :: rest =>
      match rev res with
      | [] => Panics
      | lastEditRowID :: _ =>
          match lookup eventMap evtID with
          | None => Panics
          | Some a =>
              let h := assign h a (set_LastEditRowID (h a) lastEditRowID) in
              match Exec db setLastEditRowIDQuery
                      [AnyString evtID; AnyInt lastEditRowID] with
              | Panics => Panics
              | Returns (db, Some err) => Returns (db, h, Some err)
              | Returns (db, None) => set_last_edits db h eventMap rest
              end
          end
      end
  end.

(** [EventQuery.FillLastEditRowIDs] *)
Definition FillLastEditRowIDs (db : DB) (h : heap) (roomID : String.string)
    (events : list ptr) : outcome (DB * heap * option dberror) :=
  match edits_missing h events 0 [] [] with
  | Panics => Panics
  | Returns (eventIDs, eventMap) =>
      DoTxn heap
        (fun st =>
           match GetEditRowIDs (fst st) roomID eventIDs with
           | Panics => Panics
           | Returns (db, (_, Some err)) => Returns (db, snd st, Some err)
           | Returns (db, (result, None)) =>
               set_last_edits db (snd st) eventMap result
           end)
        (db, h)
  end.

(** [Event.Scan]: the event that the returned pointer designates and the
    error; [row.Scan] gives the values of its destinations or fails. *)
Definition Event_Scan (e : Event) (row : Scanned + dberror)
  : option Event * option dberror :=
  match row with
  | inr err => (None, Some err)
  | inl s =>
      (Some (mkEvent (c_rowid s) (c_timeline_rowid s) (c_room_id s)
               (c_event_id s) (c_sender s) (c_type s) (c_state_key s)
               (c_timestamp s) (c_content s) (c_decrypted s)
               (String_ (c_decrypted_type s)) (c_unsigned s)
               (String_ (c_redacted_by s)) (String_ (c_relates_to s))
               (String_ (c_relates_to s)) (String_ (c_megolm_session_id s))
               (String_ (c_decryption_error s)) (c_reactions s)
               (Int64 (c_last_edit_rowid s))),
       None)
  end.

(** [Event.CanUseForPreview] *)
Definition Event_CanUseForPreview (e : Event) : bool :=
  (String.eqb (Type_ e) EventMessage || String.eqb (Type_ e) EventSticker
   || (String.eqb (Type_ e) EventEncrypted
       && (String.eqb (DecryptedType e) EventMessage
           || String.eqb (DecryptedType e) EventSticker)))
  && negb (String.eqb (RelationType e) RelReplace).

(** [Event.BumpsSortingTimestamp] *)
Definition Event_BumpsSortingTimestamp (e : Event) : bool :=
  (String.eqb (Type_ e) EventMessage || String.eqb (Type_ e) EventSticker
   || String.eqb (Type_ e) EventEncrypted)
  && negb (String.eqb (RelationType e) RelReplace).

End Queries.

End database.

(* ================================================================== *)
(** ** The key-derivation contract, as the specification words it

    "a single key-derivation function call over the master secret with a
    context/info string and an empty salt, producing an 80-byte output
    stream": HKDF-SHA256 as RFC 5869 defines it, against which the reader
    used by [cipher.deriveAESKeys] is compared. *)

Module rfc5869.

Definition HashLen : nat := 32.

(** PRK = HMAC-Hash(salt, IKM); a salt that is not provided is [HashLen]
    zeros. *)
Definition Extract (salt ikm : bytes) : bytes :=
  hmac.Sum (match salt with
            | [] => make HashLen
            | _ => salt
            end) ikm.

(** T(0) is empty and T(n) = HMAC-Hash(PRK, T(n-1) | info | n). *)
Fixpoint T (prk info : bytes) (n : nat) : bytes :=
  match n with
  | O => []
  | S n' => hmac.Sum prk (T prk info n' ++ info ++ [byte_of_Z (Z.of_nat n)])
  end.

(** T(1) | T(2) | ... | T(n) *)
Fixpoint stream (prk info : bytes) (n : nat) : bytes :=
  match n with
  | O => []
  | S n' => stream prk info n' ++ T prk info n
  end.

(** OKM = the first L bytes of T(1) | ... | T(ceil(L / HashLen)). *)
Definition Expand (prk info : bytes) (L : nat) : bytes :=
  firstn L (stream prk info ((L + HashLen - 1) / HashLen)).

Definition HKDF (ikm salt info : bytes) (L : nat) : bytes :=
  Expand (Extract salt ikm) info L.

End rfc5869.

(* ================================================================== *)
(** ** Reading test vectors *)

Module hex.

Definition digit (c : Ascii.ascii) : Z :=
  let n := Z.of_nat (Ascii.nat_of_ascii c) in
  if (48 <=? n) && (n <=? 57) then n - 48
  else if (97 <=? n) && (n <=? 102) then n - 87
  else 0.

(** The bytes that a string of lower-case hexadecimal digits denotes. *)
Fixpoint decode (s : String.string) : bytes :=
  match s with
  | String.String a (String.String b r) =>
      byte_of_Z (16 * digit a + digit b) :: decode r
  | _ => []
  end.
Arguments decode s%_string.

(** The result is these bytes, given in hexadecimal, and no error. *)
Definition returns (r : bytes * option error) (expected : String.string)
  : bool :=
  match r with
  | (b, None) => bytes_Equal b (decode expected)
  | (_, Some _) => false
  end.
Arguments returns r expected%_string.

(** These bytes are the ones given in hexadecimal. *)
Definition equals (b : bytes) (expected : String.string) : bool :=
  bytes_Equal b (decode expected).
Arguments equals b expected%_string.

End hex.

(* ================================================================== *)
(** * Properties *)


(** ** Bytes and lists *)

Lemma bytes_Equal_refl : forall a, bytes_Equal a a = true.
Proof.
  induction a as [|x a IH]; [reflexivity|].
  cbn [bytes_Equal]. rewrite IH, andb_true_r. now apply Byte.byte_dec_lb.
Qed.

Lemma bytes_Equal_eq : forall a b, bytes_Equal a b = true <-> a = b.
Proof.
  induction a as [|x a IH]; intros [|y b]; cbn [bytes_Equal];
    split; intros H; try discriminate; try reflexivity.
  - apply andb_true_iff in H as [Hx Hr].
    apply Byte.byte_dec_bl in Hx. apply IH in Hr. now subst.
  - injection H as -> ->. rewrite (Byte.byte_dec_lb eq_refl).
    now apply IH.
Qed.

Lemma bytes_Equal_length a b :
  length a <> length b -> bytes_Equal a b = false.
Proof.
  intros H. destruct (bytes_Equal a b) eqn:E; [|reflexivity].
  apply bytes_Equal_eq in E. now subst.
Qed.

Lemma Z_of_byte_range b : 0 <= Z_of_byte b < 256.
Proof.
  unfold Z_of_byte. pose proof (Byte.to_N_bounded b). lia.
Qed.

Lemma Z_of_byte_of_Z z : Z_of_byte (byte_of_Z z) = z mod 256.
Proof.
  unfold Z_of_byte, byte_of_Z.
  pose proof (Z.mod_pos_bound z 256 eq_refl) as Hz.
  destruct (Byte.of_N (Z.to_N (z mod 256))) as [b|] eqn:E.
  - apply Byte.to_of_N in E. rewrite E. lia.
  - apply Byte.of_N_None_iff in E. lia.
Qed.

Lemma byte_of_Z_of_byte b : byte_of_Z (Z_of_byte b) = b.
Proof.
  unfold byte_of_Z. rewrite Z.mod_small by apply Z_of_byte_range.
  unfold Z_of_byte. rewrite N2Z.id. now rewrite Byte.of_to_N.
Qed.

Lemma make_length n : length (make n) = n.
Proof. apply repeat_length. Qed.

Lemma firstn_app_exact {A} (a b : list A) n :
  length a = n -> firstn n (a ++ b) = a.
Proof.
  intros <-.
  now rewrite firstn_app, Nat.sub_diag, firstn_all, firstn_O, app_nil_r.
Qed.

Lemma skipn_app_exact {A} (a b : list A) n :
  length a = n -> skipn n (a ++ b) = b.
Proof.
  intros <-. now rewrite skipn_app, Nat.sub_diag, skipn_all, skipn_O.
Qed.

(** ** libolmpickle: what is written is read back *)

Lemma uint32_bytes_roundtrip v :
  0 <= v < 2 ^ 32 ->
  be_uint32 (byte_of_Z (Z.shiftr v 24)) (byte_of_Z (Z.shiftr v 16))
                   (byte_of_Z (Z.shiftr v 8)) (byte_of_Z v) = v.
Proof.
  intros Hv. unfold be_uint32. rewrite !Z_of_byte_of_Z.
  change 256 with (2 ^ 8).
  apply Z.bits_inj'. intros n Hn.
  rewrite !Z.lor_spec, !Z.shiftl_spec by lia.
  destruct (Z.ltb_spec n 8) as [H8|H8].
  { rewrite (Z.testbit_neg_r _ (n - 24)), (Z.testbit_neg_r _ (n - 16)),
            (Z.testbit_neg_r _ (n - 8)) by lia.
    cbn [orb]. rewrite Z.mod_pow2_bits_low by lia. reflexivity. }
  rewrite (Z.mod_pow2_bits_high v) by lia. rewrite orb_false_r.
  destruct (Z.ltb_spec n 16) as [H16|H16].
  { rewrite (Z.testbit_neg_r _ (n - 24)), (Z.testbit_neg_r _ (n - 16)) by lia.
    cbn [orb]. rewrite Z.mod_pow2_bits_low, Z.shiftr_spec by lia.
    f_equal. lia. }
  rewrite (Z.mod_pow2_bits_high _ 8 (n - 8)) by lia. rewrite orb_false_r.
  destruct (Z.ltb_spec n 24) as [H24|H24].
  { rewrite (Z.testbit_neg_r _ (n - 24)) by lia.
    cbn [orb]. rewrite Z.mod_pow2_bits_low, Z.shiftr_spec by lia.
    f_equal. lia. }
  rewrite (Z.mod_pow2_bits_high _ 8 (n - 16)) by lia. rewrite orb_false_r.
  destruct (Z.ltb_spec n 32) as [H32|H32].
  { rewrite Z.mod_pow2_bits_low, Z.shiftr_spec by lia. f_equal. lia. }
  rewrite Z.mod_pow2_bits_high by lia.
  symmetry. apply Z.bits_above_log2; [lia|].
  destruct (Z.eq_dec v 0) as [->|Hv0]; [simpl; lia|].
  apply Z.log2_lt_pow2; [lia|].
  apply Z.lt_le_trans with (2 ^ 32); [lia|].
  apply Z.pow_le_mono_r; lia.
Qed.

Lemma UnpickleUInt32_WriteUInt32 v rest :
  0 <= v < 2 ^ 32 ->
  libolmpickle.UnpickleUInt32
    (libolmpickle.WriteUInt32 libolmpickle.NewEncoder v ++ rest)
  = (v, 4%nat, None).
Proof.
  intros Hv.
  unfold libolmpickle.WriteUInt32, libolmpickle.Write,
    libolmpickle.NewEncoder, libolmpickle.UnpickleUInt32, be32.
  cbn [app].
  now rewrite uint32_bytes_roundtrip.
Qed.

Lemma UnpickleBool_WriteBool b rest :
  libolmpickle.UnpickleBool
    (libolmpickle.WriteBool libolmpickle.NewEncoder b ++ rest)
  = (b, 1%nat, None).
Proof. now destruct b. Qed.

Lemma UnpickleBytes_app a b n :
  length a = n ->
  libolmpickle.UnpickleBytes (a ++ b) n
  = (if libolmpickle.zero_filled a then [] else a, n, None).
Proof.
  intros H. unfold libolmpickle.UnpickleBytes.
  replace (length (a ++ b) <? n)%nat with false
    by (symmetry; apply Nat.ltb_ge; rewrite length_app; lia).
  cbv zeta. rewrite firstn_app_exact by exact H.
  now destruct (libolmpickle.zero_filled a).
Qed.

Lemma zero_filled_repeat n : libolmpickle.zero_filled (repeat x00 n) = true.
Proof. induction n as [|n IH]; [reflexivity | exact IH]. Qed.

Lemma zero_filled_eq k :
  libolmpickle.zero_filled k = true -> k = repeat x00 (length k).
Proof.
  induction k as [|b k IH]; [reflexivity|].
  cbn [libolmpickle.zero_filled forallb length repeat].
  intros H. apply andb_true_iff in H as [Hb Hk].
  apply Byte.byte_dec_bl in Hb. subst b. f_equal. exact (IH Hk).
Qed.

(** ** Pickles of Curve25519 key pairs and one-time keys *)

Lemma PublicKey_pickle c encoder :
  crypto.Curve25519PublicKey_PickleLibOlm c encoder
  = encoder ++ (if (length c =? 32)%nat then c else repeat x00 32).
Proof.
  unfold crypto.Curve25519PublicKey_PickleLibOlm,
    crypto.Curve25519PublicKeyLength, libolmpickle.WriteEmptyBytes,
    libolmpickle.Write, make.
  now destruct (length c =? 32)%nat.
Qed.

Lemma KeyPair_pickle c encoder :
  crypto.Curve25519KeyPair_PickleLibOlm c encoder
  = encoder
      ++ (if (length (crypto.PublicKey c) =? 32)%nat
          then crypto.PublicKey c else repeat x00 32)
      ++ (if (length (crypto.PrivateKey c) =? 32)%nat
          then crypto.PrivateKey c else repeat x00 32).
Proof.
  unfold crypto.Curve25519KeyPair_PickleLibOlm. rewrite PublicKey_pickle.
  unfold crypto.Curve25519PrivateKeyLength, curve25519.ScalarSize,
    libolmpickle.WriteEmptyBytes, libolmpickle.Write, make.
  destruct (length (crypto.PrivateKey c) =? 32)%nat;
    now rewrite <- app_assoc.
Qed.

Lemma fixed_field_length (k : bytes) :
  length (if (length k =? 32)%nat then k else repeat x00 32) = 32%nat.
Proof.
  destruct (Nat.eqb_spec (length k) 32) as [H|H]; [exact H|].
  apply repeat_length.
Qed.

Lemma KeyPair_unpickle c pub priv rest :
  length pub = 32%nat -> length priv = 32%nat ->
  crypto.Curve25519KeyPair_UnpickleLibOlm c (pub ++ priv ++ rest)
  = (crypto.mkCurve25519KeyPair
       (if libolmpickle.zero_filled priv then [] else priv)
       (if libolmpickle.zero_filled pub then [] else pub),
     (64%nat, None)).
Proof.
  intros Hpub Hpriv.
  unfold crypto.Curve25519KeyPair_UnpickleLibOlm,
    crypto.Curve25519PublicKey_UnpickleLibOlm,
    crypto.Curve25519PublicKeyLength, crypto.Curve25519PrivateKeyLength,
    curve25519.ScalarSize.
  rewrite (UnpickleBytes_app pub _ 32 Hpub).
  rewrite (skipn_app_exact pub _ 32 Hpub).
  rewrite (UnpickleBytes_app priv _ 32 Hpriv).
  reflexivity.
Qed.

(** C2.  [Curve25519KeyPair.PickleLibOlm] appends exactly 64 bytes to the
    encoder: the 32 bytes of the public key and then the 32 bytes of the
    private key, where a field whose length is not 32 (an absent one
    included) is written as 32 zero bytes.  The length written is therefore
    the same for every pair, with or without a private key. *)
Theorem KeyPair_pickle_appends_64_bytes
  (c c' : crypto.Curve25519KeyPair) (encoder : libolmpickle.Encoder) :
  let field (k : bytes) :=
    if (length k =? 32)%nat then k else repeat x00 32 in
  crypto.Curve25519KeyPair_PickleLibOlm c encoder
  = encoder ++ field (crypto.PublicKey c) ++ field (crypto.PrivateKey c)
  /\ length (field (crypto.PublicKey c)) = 32%nat
  /\ length (field (crypto.PrivateKey c)) = 32%nat
  /\ length (crypto.Curve25519KeyPair_PickleLibOlm c encoder)
     = (length encoder + 64)%nat
  /\ length (crypto.Curve25519KeyPair_PickleLibOlm c encoder)
     = length (crypto.Curve25519KeyPair_PickleLibOlm c' encoder).
Proof.
  cbv zeta. rewrite !KeyPair_pickle.
  repeat split; try apply fixed_field_length.
  - rewrite !length_app, !fixed_field_length. lia.
  - rewrite !length_app, !fixed_field_length. reflexivity.
Qed.

Lemma OneTimeKey_pickle x :
  crypto.OneTimeKey_PickleLibOlm x libolmpickle.NewEncoder
  = libolmpickle.WriteUInt32 libolmpickle.NewEncoder (crypto.ID x)
      ++ libolmpickle.WriteBool libolmpickle.NewEncoder (crypto.Published x)
      ++ (if (length (crypto.PublicKey (crypto.Key x)) =? 32)%nat
          then crypto.PublicKey (crypto.Key x) else repeat x00 32)
      ++ (if (length (crypto.PrivateKey (crypto.Key x)) =? 32)%nat
          then crypto.PrivateKey (crypto.Key x) else repeat x00 32).
Proof.
  unfold crypto.OneTimeKey_PickleLibOlm. rewrite KeyPair_pickle.
  unfold libolmpickle.WriteBool, libolmpickle.WriteUInt32,
    libolmpickle.Write, libolmpickle.NewEncoder.
  cbn [app]. reflexivity.
Qed.

(** C3, as the code has it.  A one-time key whose key pair has two
    32-byte halves, as every generated pair has, neither of them all zero,
    is read back from its pickle: [UnpickleLibOlm] on the bytes that
    [PickleLibOlm] wrote rebuilds a record [Equal] to the original (the
    very same record) and reports 69 bytes consumed, the 4 bytes of the
    id, 1 byte of the flag and 64 bytes of the pair.  A half that is all
    zero cannot be told from an absent one and is left out of the
    statement. *)
Theorem OneTimeKey_pickle_roundtrip (x c0 : crypto.OneTimeKey) :
  0 <= crypto.ID x < 2 ^ 32 ->
  length (crypto.PrivateKey (crypto.Key x)) = 32%nat ->
  length (crypto.PublicKey (crypto.Key x)) = 32%nat ->
  libolmpickle.zero_filled (crypto.PrivateKey (crypto.Key x)) = false ->
  libolmpickle.zero_filled (crypto.PublicKey (crypto.Key x)) = false ->
  let pickled :=
    libolmpickle.Bytes
      (crypto.OneTimeKey_PickleLibOlm x libolmpickle.NewEncoder) in
  length pickled = 69%nat /\
  exists y,
    crypto.OneTimeKey_UnpickleLibOlm c0 pickled = (y, (69%nat, None)) /\
    crypto.OneTimeKey_Equal y x = true /\ y = x.
Proof.
  intros Hid Hpriv Hpub Hzpriv Hzpub pickled. subst pickled.
  unfold libolmpickle.Bytes.
  rewrite OneTimeKey_pickle.
  rewrite Hpriv, Hpub. cbn [Nat.eqb].
  split.
  { rewrite !length_app, Hpriv, Hpub. reflexivity. }
  exists x.
  assert (Heq : crypto.OneTimeKey_Equal x x = true).
  { unfold crypto.OneTimeKey_Equal, crypto.Curve25519PrivateKey_Equal,
      crypto.Curve25519PublicKey_Equal.
    now rewrite Z.eqb_refl, Bool.eqb_reflx, !bytes_Equal_refl. }
  split; [|split; [exact Heq | reflexivity]].
  unfold crypto.OneTimeKey_UnpickleLibOlm.
  rewrite UnpickleUInt32_WriteUInt32 by exact Hid.
  cbn [Nat.add].
  rewrite (skipn_app_exact _ _ 4) by reflexivity.
  rewrite UnpickleBool_WriteBool.
  cbn [Nat.add].
  rewrite app_assoc, (skipn_app_exact _ _ 5) by reflexivity.
  cbn [crypto.Key crypto.ID crypto.Published].
  rewrite <- (app_nil_r (crypto.PrivateKey (crypto.Key x))) at 1.
  rewrite (KeyPair_unpickle _ _ _ [] Hpub Hpriv), Hzpriv, Hzpub.
  destruct x as [id published [priv pub]]. reflexivity.
Qed.

(** The scenario of the specification: id 1, not published. *)
Lemma OneTimeKey_pickle_roundtrip_witness :
  let x := crypto.mkOneTimeKey 1 false
             (crypto.mkCurve25519KeyPair (repeat x07 32) (repeat x09 32)) in
  let c0 := crypto.mkOneTimeKey 0 false (crypto.mkCurve25519KeyPair [] []) in
  let pickled :=
    libolmpickle.Bytes
      (crypto.OneTimeKey_PickleLibOlm x libolmpickle.NewEncoder) in
  length pickled = 69%nat /\
  exists y,
    crypto.OneTimeKey_UnpickleLibOlm c0 pickled = (y, (69%nat, None)) /\
    crypto.OneTimeKey_Equal y x = true /\ y = x.
Proof.
  apply (OneTimeKey_pickle_roundtrip
           (crypto.mkOneTimeKey 1 false
              (crypto.mkCurve25519KeyPair (repeat x07 32) (repeat x09 32)))
           (crypto.mkOneTimeKey 0 false (crypto.mkCurve25519KeyPair [] []))).
  - cbn; lia.
  - reflexivity.
  - reflexivity.
  - reflexivity.
  - reflexivity.
Defined.

(** C10, as the code has it.  [Curve25519KeyPair.UnpickleLibOlm], when it
    succeeds, sets the private key to the 32 bytes that it read after the
    public key, unless they are all zero: then it sets it to the absent
    value.  So the pickle of a pair without private key, which holds 32
    zero bytes in its place, is read back as a pair without private key
    again, and that key is [Equal] to the original one; the whole pair is
    the original one when its public key has 32 bytes, not all zero. *)
Theorem KeyPair_unpickle_restores_absent_private_key
  (c : crypto.Curve25519KeyPair) (value pub : bytes) :
  match crypto.Curve25519KeyPair_UnpickleLibOlm c value with
  | (c', (_, None)) =>
      let read := firstn 32 (skipn 32 value) in
      length read = 32%nat
      /\ crypto.PrivateKey c'
         = (if libolmpickle.zero_filled read then [] else read)
  | (c', (_, Some _)) => crypto.PrivateKey c' = crypto.PrivateKey c
  end
  /\
  let x := crypto.mkCurve25519KeyPair [] pub in
  let pickled :=
    libolmpickle.Bytes
      (crypto.Curve25519KeyPair_PickleLibOlm x libolmpickle.NewEncoder) in
  let pub' :=
    if (length pub =? 32)%nat && negb (libolmpickle.zero_filled pub)
    then pub else [] in
  crypto.Curve25519KeyPair_UnpickleLibOlm c pickled
  = (crypto.mkCurve25519KeyPair [] pub', (64%nat, None))
  /\ crypto.Curve25519PrivateKey_Equal [] (crypto.PrivateKey x) = true
  /\ (length pub = 32%nat -> libolmpickle.zero_filled pub = false ->
      crypto.mkCurve25519KeyPair [] pub' = x).
Proof.
  split.
  - unfold crypto.Curve25519KeyPair_UnpickleLibOlm,
      crypto.Curve25519PublicKey_UnpickleLibOlm,
      crypto.Curve25519PublicKeyLength, crypto.Curve25519PrivateKeyLength,
      curve25519.ScalarSize, libolmpickle.UnpickleBytes.
    destruct (Nat.ltb_spec (length value) 32) as [H1|H1]; [reflexivity|].
    cbv zeta.
    destruct (libolmpickle.zero_filled (firstn 32 value));
      cbn [crypto.PublicKey crypto.PrivateKey];
      (destruct (Nat.ltb_spec (length (skipn 32 value)) 32) as [H2|H2];
       [reflexivity|]);
      destruct (libolmpickle.zero_filled (firstn 32 (skipn 32 value)));
      cbv zeta; cbn [crypto.PrivateKey];
      (split; [rewrite length_firstn; lia | reflexivity]).
  - cbv zeta. split; [|split; [reflexivity|]].
    + unfold libolmpickle.Bytes. rewrite KeyPair_pickle.
      cbn [crypto.PublicKey crypto.PrivateKey length Nat.eqb app
           libolmpickle.NewEncoder].
      rewrite <- (app_nil_r (repeat x00 32)) at 2.
      rewrite KeyPair_unpickle by (try apply fixed_field_length; reflexivity).
      rewrite zero_filled_repeat.
      destruct (length pub =? 32)%nat; cbn [andb].
      * now destruct (libolmpickle.zero_filled pub).
      * now rewrite zero_filled_repeat.
    + intros Hl Hz. rewrite Hl, Hz. reflexivity.
Qed.

(** C10, as it is stated, fails: the pickle of a pair without private key
    is read back with an absent private key, not with 32 zero bytes, and
    that key is [Equal] to the original one. *)
Lemma KeyPair_unpickle_gives_the_absent_private_key_back :
  let x := crypto.mkCurve25519KeyPair [] (repeat x09 32) in
  let c := crypto.mkCurve25519KeyPair [] [] in
  let pickled :=
    libolmpickle.Bytes
      (crypto.Curve25519KeyPair_PickleLibOlm x libolmpickle.NewEncoder) in
  let y := fst (crypto.Curve25519KeyPair_UnpickleLibOlm c pickled) in
  firstn 32 (skipn 32 pickled) = repeat x00 32
  /\ snd (crypto.Curve25519KeyPair_UnpickleLibOlm c pickled) = (64%nat, None)
  /\ crypto.PrivateKey y = []
  /\ crypto.PrivateKey y <> repeat x00 32
  /\ crypto.Curve25519PrivateKey_Equal (crypto.PrivateKey y)
       (crypto.PrivateKey x) = true.
Proof.
  cbv zeta. split; [reflexivity|]. split; [reflexivity|].
  split; [reflexivity|]. split; [vm_compute; discriminate | reflexivity].
Qed.

(** ** SHA-256, HMAC and the HKDF reader *)

Lemma Sum256_length data : length (sha256.Sum256 data) = 32%nat.
Proof.
  unfold sha256.Sum256.
  generalize (sha256.blockGeneric sha256.init
                (data ++ sha256.padding (length data))).
  intros d. reflexivity.
Qed.

Lemma hmac_Sum_length key m : length (hmac.Sum key m) = 32%nat.
Proof. unfold hmac.Sum. apply Sum256_length. Qed.

Lemma HMACSHA256_length key input :
  length (crypto.HMACSHA256 key input) = 32%nat.
Proof. apply hmac_Sum_length. Qed.

(** A salt of 32 zero bytes, which stands for the nil salt, keys the
    extraction like the empty salt does. *)
Lemma hmac_Sum_zero_key m : hmac.Sum (make 32) m = hmac.Sum [] m.
Proof. reflexivity. Qed.

Lemma fill_step fuel f out need n :
  hkdf.fill (S fuel) f out (S need) n
  = let prev := hmac.Sum (hkdf.expander f)
                  (hkdf.prev f ++ hkdf.info f
                     ++ [byte_of_Z (hkdf.counter f)]) in
    let m := Nat.min (S need) 32 in
    hkdf.fill fuel
      (hkdf.mkHkdf (hkdf.expander f) (hkdf.size f) (hkdf.info f)
                   ((hkdf.counter f + 1) mod 256) prev prev)
      (out ++ firstn m prev) (S need - m) m.
Proof.
  cbn [hkdf.fill Nat.ltb Nat.leb hkdf.buf]. now rewrite hmac_Sum_length.
Qed.

Lemma fill_done fuel f out n : hkdf.fill fuel f out 0 n = (f, out, n).
Proof. now destruct fuel. Qed.

Lemma Read_80_fresh prk info :
  hkdf.Read (hkdf.Expand prk info) (make 80)
  = (hkdf.mkHkdf prk 32 info 4 (rfc5869.T prk info 3)
                 (skipn 16 (rfc5869.T prk info 3)),
     rfc5869.T prk info 1 ++ rfc5869.T prk info 2
       ++ firstn 16 (rfc5869.T prk info 3),
     (80%nat, None)).
Proof.
  unfold hkdf.Read, hkdf.Expand.
  cbn [hkdf.buf hkdf.counter hkdf.size length make repeat].
  change (length (repeat x00 80)) with 80%nat.
  change ((0 + Z.to_nat ((255 - 1 + 1) mod 256) * sha256.Size <? 80)%nat)
    with false.
  cbv iota. change (Nat.min 80 0) with 0%nat.
  change (80 - 0)%nat with 80%nat.
  do 3 (rewrite fill_step; cbv zeta;
        cbn [hkdf.expander hkdf.prev hkdf.info hkdf.counter hkdf.size
             Nat.min Nat.sub]).
  rewrite fill_done.
  cbn [hkdf.expander hkdf.prev hkdf.info hkdf.counter hkdf.size hkdf.buf].
  set (t1 := hmac.Sum prk ([] ++ info ++ [byte_of_Z 1])).
  set (t2 := hmac.Sum prk (t1 ++ info ++ [byte_of_Z ((1 + 1) mod 256)])).
  set (t3 := hmac.Sum prk
               (t2 ++ info ++ [byte_of_Z (((1 + 1) mod 256 + 1) mod 256)])).
  change (rfc5869.T prk info 1) with t1.
  change (rfc5869.T prk info 2) with t2.
  change (rfc5869.T prk info 3) with t3.
  change ((((1 + 1) mod 256 + 1) mod 256 + 1) mod 256) with 4.
  change (firstn 0 (@nil byte)) with (@nil byte).
  rewrite (firstn_all2 (n := 32) t1), (firstn_all2 (n := 32) t2)
    by (unfold t1, t2; rewrite hmac_Sum_length; lia).
  now rewrite app_nil_l, <- app_assoc.
Qed.

Lemma T_length prk info n : length (rfc5869.T prk info (S n)) = 32%nat.
Proof. cbn [rfc5869.T]. apply hmac_Sum_length. Qed.

Lemma Expand_80 prk info :
  rfc5869.Expand prk info 80
  = rfc5869.T prk info 1 ++ rfc5869.T prk info 2
      ++ firstn 16 (rfc5869.T prk info 3).
Proof.
  unfold rfc5869.Expand.
  change ((80 + rfc5869.HashLen - 1) / rfc5869.HashLen)%nat with 3%nat.
  cbn [rfc5869.stream]. rewrite app_nil_l.
  rewrite firstn_app, length_app, !T_length.
  rewrite firstn_all2 by (rewrite length_app, !T_length; lia).
  now rewrite <- app_assoc.
Qed.

Section Split.
Variables a b c : bytes.
Hypothesis Ha : length a = 32%nat.
Hypothesis Hb : length b = 32%nat.

Lemma split_first : firstn 32 (a ++ b ++ c) = a.
Proof. now apply firstn_app_exact. Qed.

Lemma split_second : firstn (64 - 32) (skipn 32 (a ++ b ++ c)) = b.
Proof.
  rewrite (skipn_app_exact a _ 32 Ha). now apply firstn_app_exact.
Qed.

Lemma split_third : skipn 64 (a ++ b ++ c) = c.
Proof.
  rewrite app_assoc. apply skipn_app_exact. rewrite length_app. lia.
Qed.
End Split.

Lemma deriveAESKeys_blocks kdfInfo key :
  let prk := rfc5869.Extract [] key in
  cipher.deriveAESKeys kdfInfo key
  = (cipher.mkDerivedAESKeys (rfc5869.T prk kdfInfo 1)
                             (rfc5869.T prk kdfInfo 2)
                             (firstn 16 (rfc5869.T prk kdfInfo 3)),
     None).
Proof.
  intros prk. unfold cipher.deriveAESKeys, crypto.HKDFSHA256, hkdf.New.
  change (hkdf.Extract key []) with prk.
  change (hkdf.ReadFull (hkdf.Expand prk kdfInfo) (make 80))
    with (hkdf.Read (hkdf.Expand prk kdfInfo) (make 80)).
  rewrite Read_80_fresh.
  rewrite split_first, split_second, split_third by apply T_length.
  reflexivity.
Qed.

(** C1.  For every master secret and every context, [deriveAESKeys] reads
    exactly the 80 bytes of output keying material that HKDF-SHA256 gives
    for that secret, the empty salt and that context, without error, and
    cuts them in this order: the cipher key is bytes 0-31, the MAC key
    bytes 32-63 and the IV bytes 64-79. *)
Theorem deriveAESKeys_reads_80_bytes_split_32_32_16 (kdfInfo key : bytes) :
  let okm := rfc5869.HKDF key [] kdfInfo 80 in
  length okm = 80%nat
  /\ cipher.deriveAESKeys kdfInfo key
     = (cipher.mkDerivedAESKeys (firstn 32 okm)
                                (firstn 32 (skipn 32 okm))
                                (skipn 64 okm),
        None)
  /\ length (firstn 32 okm) = 32%nat
  /\ length (firstn 32 (skipn 32 okm)) = 32%nat
  /\ length (skipn 64 okm) = 16%nat.
Proof.
  intros okm. subst okm. unfold rfc5869.HKDF. rewrite Expand_80.
  set (prk := rfc5869.Extract [] key).
  pose proof (T_length prk kdfInfo 0) as H1.
  pose proof (T_length prk kdfInfo 1) as H2.
  pose proof (T_length prk kdfInfo 2) as H3.
  change (firstn 32 (skipn 32 ?l)) with (firstn (64 - 32) (skipn 32 l)).
  rewrite split_first, split_second, split_third by assumption.
  assert (H16 : length (firstn 16 (rfc5869.T prk kdfInfo 3)) = 16%nat)
    by (rewrite length_firstn; lia).
  split; [rewrite !length_app; lia|].
  split; [apply deriveAESKeys_blocks|].
  split; [assumption|]. split; assumption.
Qed.

(** ** The MAC of AES-SHA256 and its verification *)

Lemma AESSHA256_MAC_returns c key message :
  exists mac,
    cipher.AESSHA256_MAC c key message = (mac, None) /\ length mac = 32%nat.
Proof.
  unfold cipher.AESSHA256_MAC. rewrite deriveAESKeys_blocks. cbv zeta.
  eexists. split; [reflexivity|]. apply HMACSHA256_length.
Qed.

(** C5.  A prefix of the genuine tag verifies.  For every secret and
    message, [MAC] returns a tag of 32 bytes and no error, and for every
    length [n] up to these 32 bytes the slice of its first [n] bytes is in
    range and [Verify] on it returns [(true, nil)].  Only the first
    [len(givenMAC)] bytes of the recomputed tag are compared: for a given
    tag of at most 32 bytes [Verify] returns whether it equals the slice of
    that length of the recomputed tag, so a tag of [n] bytes that differs
    from the prefix is answered with [(false, nil)]. *)
Theorem Verify_accepts_every_prefix_of_the_tag
  (c : cipher.AESSHA256) (s m : bytes) (n : nat) :
  (n <= 32)%nat ->
  exists mac prefix,
    cipher.AESSHA256_MAC c s m = (mac, None)
    /\ length mac = 32%nat
    /\ slice_to mac n = Some prefix
    /\ length prefix = n
    /\ cipher.AESSHA256_Verify c s m prefix = Returns (true, None)
    /\ (forall givenMAC, (length givenMAC <= 32)%nat ->
          exists cut,
            slice_to mac (length givenMAC) = Some cut
            /\ cipher.AESSHA256_Verify c s m givenMAC
               = Returns (bytes_Equal givenMAC cut, None))
    /\ (forall t, length t = n -> t <> prefix ->
          cipher.AESSHA256_Verify c s m t = Returns (false, None)).
Proof.
  intros Hn. unfold cipher.AESSHA256_Verify.
  destruct (AESSHA256_MAC_returns c s m) as [mac [-> Hlen]].
  exists mac, (firstn n mac).
  assert (Hcut : forall k, (k <= 32)%nat ->
            slice_to mac k = Some (firstn k mac)).
  { intros k Hk. unfold slice_to. rewrite Hlen.
    now replace (k <=? 32)%nat with true by (symmetry; now apply Nat.leb_le). }
  assert (Hpre : length (firstn n mac) = n)
    by (rewrite length_firstn, Hlen; lia).
  split; [reflexivity|]. split; [exact Hlen|].
  split; [exact (Hcut n Hn)|]. split; [exact Hpre|].
  split; [|split].
  - rewrite Hpre, (Hcut n Hn). now rewrite bytes_Equal_refl.
  - intros givenMAC Hg. exists (firstn (length givenMAC) mac).
    split; [exact (Hcut _ Hg)|]. now rewrite (Hcut _ Hg).
  - intros t Ht Hne. rewrite Ht, (Hcut n Hn).
    destruct (bytes_Equal t (firstn n mac)) eqn:E; [|reflexivity].
    apply bytes_Equal_eq in E. contradiction.
Qed.

Lemma Verify_accepts_every_prefix_of_the_tag_witness :
  exists mac prefix,
    cipher.AESSHA256_MAC (cipher.NewAESSHA256 [x4f; x4c; x4d]) (make 32)
      [x68; x69] = (mac, None)
    /\ length mac = 32%nat
    /\ slice_to mac 8 = Some prefix
    /\ length prefix = 8%nat
    /\ cipher.AESSHA256_Verify (cipher.NewAESSHA256 [x4f; x4c; x4d])
         (make 32) [x68; x69] prefix = Returns (true, None)
    /\ (forall givenMAC, (length givenMAC <= 32)%nat ->
          exists cut,
            slice_to mac (length givenMAC) = Some cut
            /\ cipher.AESSHA256_Verify (cipher.NewAESSHA256 [x4f; x4c; x4d])
                 (make 32) [x68; x69] givenMAC
               = Returns (bytes_Equal givenMAC cut, None))
    /\ (forall t, length t = 8%nat -> t <> prefix ->
          cipher.AESSHA256_Verify (cipher.NewAESSHA256 [x4f; x4c; x4d])
            (make 32) [x68; x69] t = Returns (false, None)).
Proof.
  apply (Verify_accepts_every_prefix_of_the_tag
           (cipher.NewAESSHA256 [x4f; x4c; x4d]) (make 32) [x68; x69] 8).
  lia.
Defined.

(** C9.  [Verify] panics exactly when the given tag is longer than the 32
    bytes of the recomputed one: whatever the secret and the message, the
    slice [mac[:len(givenMAC)]] is then out of range, and no [false] and
    no error is returned.  With at most 32 bytes it returns the comparison
    of the given tag with that prefix, and no error. *)
Theorem Verify_panics_iff_tag_longer_than_32
  (c : cipher.AESSHA256) (s m t : bytes) :
  (cipher.AESSHA256_Verify c s m t = Panics <-> (32 < length t)%nat)
  /\ (cipher.AESSHA256_Verify c s m t
      = Returns (bytes_Equal t (firstn (length t)
                                  (fst (cipher.AESSHA256_MAC c s m))),
                 None)
      <-> (length t <= 32)%nat).
Proof.
  unfold cipher.AESSHA256_Verify.
  destruct (AESSHA256_MAC_returns c s m) as [mac [-> Hlen]].
  cbn [fst]. unfold slice_to. rewrite Hlen.
  destruct (Nat.leb_spec (length t) 32) as [H|H].
  - split; split; intros H'; try discriminate; try reflexivity;
      try assumption; lia.
  - split; split; intros H'; try reflexivity; try assumption;
      try discriminate; lia.
Qed.

(** ** AES: the inverse cipher undoes the cipher *)


(** *** Bytes as bit vectors *)

Lemma byte_bits_ind (P : byte -> Prop) :
  (forall t, P (Byte.of_bits t)) -> forall b, P b.
Proof.
  intros H b. rewrite <- (Byte.of_bits_to_bits b). apply H.
Qed.

Ltac bits_of b :=
  revert b; apply byte_bits_ind; intros [? [? [? [? [? [? [? ?]]]]]]].

Ltac bits_eq :=
  unfold byte_xor, aes.xtime; rewrite ?Byte.to_bits_of_bits;
  cbv beta iota zeta; rewrite ?Byte.to_bits_of_bits;
  apply (f_equal Byte.of_bits);
  repeat (apply (f_equal2 (@pair _ _)); [btauto | ]); btauto.

Lemma byte_xor_comm a b : byte_xor a b = byte_xor b a.
Proof. bits_of a. bits_of b. bits_eq. Qed.

Lemma byte_xor_assoc a b c :
  byte_xor (byte_xor a b) c = byte_xor a (byte_xor b c).
Proof. bits_of a. bits_of b. bits_of c. bits_eq. Qed.

Lemma byte_xor_cancel a b : byte_xor (byte_xor a b) b = a.
Proof. bits_of a. bits_of b. bits_eq. Qed.

Lemma byte_xor_0_r a : byte_xor a x00 = a.
Proof. bits_of a. change x00 with (Byte.of_bits (false,(false,(false,(false,(false,(false,(false,false)))))))). bits_eq. Qed.

Lemma byte_xor_0_l a : byte_xor x00 a = a.
Proof. rewrite byte_xor_comm. apply byte_xor_0_r. Qed.

Lemma xtime_xor a b :
  aes.xtime (byte_xor a b) = byte_xor (aes.xtime a) (aes.xtime b).
Proof. bits_of a. bits_of b. bits_eq. Qed.

Lemma xor4_transpose a b c d e f g h i j k l m n o p :
  aes.xor4 (aes.xor4 a b c d) (aes.xor4 e f g h)
           (aes.xor4 i j k l) (aes.xor4 m n o p)
  = aes.xor4 (aes.xor4 a e i m) (aes.xor4 b f j n)
             (aes.xor4 c g k o) (aes.xor4 d h l p).
Proof.
  unfold aes.xor4.
  bits_of a; bits_of b; bits_of c; bits_of d; bits_of e; bits_of f;
  bits_of g; bits_of h; bits_of i; bits_of j; bits_of k; bits_of l;
  bits_of m; bits_of n; bits_of o; bits_of p.
  bits_eq.
Qed.

Section Linear.
Variable f : byte -> byte.
Hypothesis f_xor : forall a b, f (byte_xor a b) = byte_xor (f a) (f b).

Lemma linear_xor4 a b c d :
  f (aes.xor4 a b c d) = aes.xor4 (f a) (f b) (f c) (f d).
Proof. unfold aes.xor4. now rewrite !f_xor. Qed.
End Linear.

Ltac all_bits :=
  repeat match goal with x : byte |- _ => bits_of x end.

Ltac mul_linear :=
  intros;
  unfold aes.mul2, aes.mul3, aes.mul9, aes.mul11, aes.mul13, aes.mul14;
  rewrite !xtime_xor;
  repeat match goal with
         | x : byte |- context [aes.xtime ?x] =>
             generalize (aes.xtime x); intro
         end;
  all_bits; bits_eq.

Lemma mul2_xor a b : aes.mul2 (byte_xor a b) = byte_xor (aes.mul2 a) (aes.mul2 b).
Proof. apply xtime_xor. Qed.
Lemma mul3_xor a b : aes.mul3 (byte_xor a b) = byte_xor (aes.mul3 a) (aes.mul3 b).
Proof. mul_linear. Qed.
Lemma mul9_xor a b : aes.mul9 (byte_xor a b) = byte_xor (aes.mul9 a) (aes.mul9 b).
Proof. mul_linear. Qed.
Lemma mul11_xor a b : aes.mul11 (byte_xor a b) = byte_xor (aes.mul11 a) (aes.mul11 b).
Proof. mul_linear. Qed.
Lemma mul13_xor a b : aes.mul13 (byte_xor a b) = byte_xor (aes.mul13 a) (aes.mul13 b).
Proof. mul_linear. Qed.
Lemma mul14_xor a b : aes.mul14 (byte_xor a b) = byte_xor (aes.mul14 a) (aes.mul14 b).
Proof. mul_linear. Qed.

Ltac by_cases a := destruct a; vm_compute; reflexivity.

Lemma xor4_pick0 a x y z w :
  x = a -> y = x00 -> z = x00 -> w = x00 -> aes.xor4 x y z w = a.
Proof.
  intros -> -> -> ->. unfold aes.xor4. now rewrite !byte_xor_0_r.
Qed.
Lemma xor4_pick1 a x y z w :
  x = x00 -> y = a -> z = x00 -> w = x00 -> aes.xor4 x y z w = a.
Proof.
  intros -> -> -> ->. unfold aes.xor4. now rewrite byte_xor_0_l, !byte_xor_0_r.
Qed.
Lemma xor4_pick2 a x y z w :
  x = x00 -> y = x00 -> z = a -> w = x00 -> aes.xor4 x y z w = a.
Proof.
  intros -> -> -> ->. unfold aes.xor4. now rewrite !byte_xor_0_l, byte_xor_0_r.
Qed.
Lemma xor4_pick3 a x y z w :
  x = x00 -> y = x00 -> z = x00 -> w = a -> aes.xor4 x y z w = a.
Proof.
  intros -> -> -> ->. unfold aes.xor4. now rewrite !byte_xor_0_l.
Qed.

Ltac push_mul :=
  rewrite ?(linear_xor4 aes.mul9 mul9_xor), ?(linear_xor4 aes.mul11 mul11_xor),
          ?(linear_xor4 aes.mul13 mul13_xor), ?(linear_xor4 aes.mul14 mul14_xor);
  rewrite xor4_transpose.

Lemma inv_mix_column a0 a1 a2 a3 r :
  aes.InvMixColumns (aes.MixColumns (a0 :: a1 :: a2 :: a3 :: r))
  = a0 :: a1 :: a2 :: a3 :: aes.InvMixColumns (aes.MixColumns r).
Proof.
  cbn [aes.MixColumns aes.InvMixColumns].
  apply (f_equal2 (@cons _)).
  { push_mul. apply xor4_pick0; [by_cases a0 | by_cases a1 | by_cases a2 | by_cases a3]. }
  apply (f_equal2 (@cons _)).
  { push_mul. apply xor4_pick1; [by_cases a0 | by_cases a1 | by_cases a2 | by_cases a3]. }
  apply (f_equal2 (@cons _)).
  { push_mul. apply xor4_pick2; [by_cases a0 | by_cases a1 | by_cases a2 | by_cases a3]. }
  apply (f_equal2 (@cons _)).
  { push_mul. apply xor4_pick3; [by_cases a0 | by_cases a1 | by_cases a2 | by_cases a3]. }
  reflexivity.
Qed.

Lemma InvMixColumns_MixColumns : forall s,
  aes.InvMixColumns (aes.MixColumns s) = s.
Proof.
  fix IH 1.
  intros [|a0 [|a1 [|a2 [|a3 r]]]]; try reflexivity.
  rewrite inv_mix_column. now rewrite IH.
Qed.

Lemma MixColumns_length : forall s, length (aes.MixColumns s) = length s.
Proof.
  fix IH 1.
  intros [|a0 [|a1 [|a2 [|a3 r]]]]; try reflexivity.
  cbn [aes.MixColumns length]. now rewrite IH.
Qed.

Lemma InvMixColumns_length : forall s, length (aes.InvMixColumns s) = length s.
Proof.
  fix IH 1.
  intros [|a0 [|a1 [|a2 [|a3 r]]]]; try reflexivity.
  cbn [aes.InvMixColumns length]. now rewrite IH.
Qed.

Lemma inv_sbox_sbox b : aes.inv_sbox (aes.sbox b) = b.
Proof. by_cases b. Qed.

Lemma InvSubBytes_SubBytes s : aes.InvSubBytes (aes.SubBytes s) = s.
Proof.
  unfold aes.InvSubBytes, aes.SubBytes. rewrite map_map.
  induction s as [|b s IH]; [reflexivity|].
  cbn [map]. now rewrite inv_sbox_sbox, IH.
Qed.

Lemma InvShiftRows_ShiftRows s : aes.InvShiftRows (aes.ShiftRows s) = s.
Proof.
  do 17 (destruct s as [|? s]; [reflexivity|]). reflexivity.
Qed.

Lemma ShiftRows_length s : length (aes.ShiftRows s) = length s.
Proof.
  do 17 (destruct s as [|? s]; [reflexivity|]). reflexivity.
Qed.

Lemma InvShiftRows_length s : length (aes.InvShiftRows s) = length s.
Proof.
  do 17 (destruct s as [|? s]; [reflexivity|]). reflexivity.
Qed.

Lemma add_key_length w : forall s off, length (aes.add_key s w off) = length s.
Proof.
  induction s as [|b s IH]; intros off; cbn [aes.add_key length]; [reflexivity|].
  now rewrite IH.
Qed.

Lemma add_key_cancel w : forall s off,
  aes.add_key (aes.add_key s w off) w off = s.
Proof.
  induction s as [|b s IH]; intros off; cbn [aes.add_key]; [reflexivity|].
  now rewrite byte_xor_cancel, IH.
Qed.

Lemma AddRoundKey_cancel s w round :
  aes.AddRoundKey (aes.AddRoundKey s w round) w round = s.
Proof. apply add_key_cancel. Qed.

Lemma AddRoundKey_length s w round :
  length (aes.AddRoundKey s w round) = length s.
Proof. apply add_key_length. Qed.

Lemma enc_rounds_snoc w : forall n round s,
  aes.enc_rounds (S n) round w s
  = aes.AddRoundKey
      (aes.MixColumns (aes.ShiftRows (aes.SubBytes (aes.enc_rounds n round w s))))
      w (n + round).
Proof.
  induction n as [|n IH]; intros round s.
  - reflexivity.
  - change (aes.enc_rounds (S (S n)) round w s)
      with (aes.enc_rounds (S n) (S round) w
              (aes.AddRoundKey (aes.MixColumns (aes.ShiftRows (aes.SubBytes s))) w round)).
    rewrite IH. cbn [aes.enc_rounds]. now rewrite Nat.add_succ_r.
Qed.

Lemma dec_enc_rounds w : forall n s,
  aes.dec_rounds n w
    (aes.ShiftRows (aes.SubBytes (aes.enc_rounds n 1 w s)))
  = aes.ShiftRows (aes.SubBytes s).
Proof.
  induction n as [|n IH]; intros s.
  - reflexivity.
  - rewrite enc_rounds_snoc. cbn [aes.dec_rounds].
    rewrite InvShiftRows_ShiftRows, InvSubBytes_SubBytes.
    rewrite Nat.add_1_r, AddRoundKey_cancel, InvMixColumns_MixColumns.
    apply IH.
Qed.

Lemma aes_Decrypt_Encrypt c src : aes.Decrypt c (aes.Encrypt c src) = src.
Proof.
  unfold aes.Decrypt, aes.Encrypt.
  rewrite AddRoundKey_cancel, dec_enc_rounds.
  now rewrite InvShiftRows_ShiftRows, InvSubBytes_SubBytes, AddRoundKey_cancel.
Qed.

Lemma enc_rounds_length w : forall n round s,
  length (aes.enc_rounds n round w s) = length s.
Proof.
  induction n as [|n IH]; intros round s; cbn [aes.enc_rounds]; [reflexivity|].
  rewrite IH, AddRoundKey_length, MixColumns_length, ShiftRows_length.
  apply length_map.
Qed.

Lemma aes_Encrypt_length c src : length (aes.Encrypt c src) = length src.
Proof.
  unfold aes.Encrypt.
  rewrite AddRoundKey_length, ShiftRows_length. unfold aes.SubBytes.
  rewrite length_map, enc_rounds_length. apply AddRoundKey_length.
Qed.

(** *** CBC and PKCS#7 *)

Lemma xor_bytes_length : forall a b,
  length a = length b -> length (xor_bytes a b) = length a.
Proof.
  induction a as [|x a IH]; intros [|y b] H; try discriminate; [reflexivity|].
  cbn [xor_bytes length]. f_equal. apply IH. now injection H.
Qed.

Lemma xor_bytes_cancel : forall a b,
  length a = length b -> xor_bytes (xor_bytes a b) b = a.
Proof.
  induction a as [|x a IH]; intros [|y b] H; try discriminate; [reflexivity|].
  cbn [xor_bytes]. rewrite byte_xor_cancel. f_equal. apply IH. now injection H.
Qed.

Lemma firstn_skipn_length {A} (n : nat) (l : list A) m :
  length l = (n + m)%nat -> length (firstn n l) = n /\ length (skipn n l) = m.
Proof.
  intros H. rewrite length_firstn, length_skipn. lia.
Qed.



Lemma encryptBlocks_length b : forall n iv src,
  length iv = aes.BlockSize -> length src = (aes.BlockSize * n)%nat ->
  length (cbc.encryptBlocks n b iv src) = (aes.BlockSize * n)%nat.
Proof.
  change aes.BlockSize with 16%nat.
  induction n as [|n IH]; intros iv src Hiv Hsrc; cbn [cbc.encryptBlocks];
    change aes.BlockSize with 16%nat.
  - reflexivity.
  - destruct (firstn_skipn_length 16 src (16 * n)) as [Hf Hs]; [lia|].
    assert (Hc : length (aes.Encrypt b (xor_bytes (firstn 16 src) iv)) = 16%nat).
    { rewrite aes_Encrypt_length, xor_bytes_length; lia. }
    rewrite length_app, Hc, IH; [lia | exact Hc | exact Hs].
Qed.

Lemma decrypt_encryptBlocks b : forall n iv src,
  length iv = aes.BlockSize -> length src = (aes.BlockSize * n)%nat ->
  cbc.decryptBlocks n b iv (cbc.encryptBlocks n b iv src) = src.
Proof.
  change aes.BlockSize with 16%nat.
  induction n as [|n IH]; intros iv src Hiv Hsrc.
  - destruct src; [reflexivity | discriminate].
  - cbn [cbc.encryptBlocks cbc.decryptBlocks]; change aes.BlockSize with 16%nat.
    destruct (firstn_skipn_length 16 src (16 * n)) as [Hf Hs]; [lia|].
    set (c := aes.Encrypt b (xor_bytes (firstn 16 src) iv)).
    assert (Hc : length c = 16%nat).
    { unfold c. rewrite aes_Encrypt_length, xor_bytes_length; lia. }
    rewrite (firstn_app_exact c _ 16 Hc), (skipn_app_exact c _ 16 Hc).
    unfold c at 1. rewrite aes_Decrypt_Encrypt.
    rewrite xor_bytes_cancel by lia.
    rewrite IH by assumption.
    apply firstn_skipn.
Qed.



Lemma last_app_repeat {A} (l : list A) (x d : A) n :
  last (l ++ repeat x (S n)) d = x.
Proof.
  change (S n) with (1 + n)%nat. rewrite Nat.add_comm, repeat_app, app_assoc.
  apply last_last.
Qed.

Lemma Pad_length data :
  exists k, length (pkcs7.Pad data aes.BlockSize) = (aes.BlockSize * S k)%nat.
Proof.
  unfold pkcs7.Pad, aes.BlockSize.
  exists (length data / 16)%nat.
  rewrite length_app, repeat_length.
  pose proof (Nat.div_mod_eq (length data) 16).
  pose proof (Nat.mod_upper_bound (length data) 16). lia.
Qed.

Lemma Unpad_Pad data : pkcs7.Unpad (pkcs7.Pad data aes.BlockSize) = Some data.
Proof.
  unfold pkcs7.Pad, pkcs7.Unpad, aes.BlockSize.
  pose proof (Nat.mod_upper_bound (length data) 16) as Hm.
  set (padding := (16 - length data mod 16)%nat).
  assert (Hp : (1 <= padding <= 16)%nat) by (unfold padding; lia).
  destruct padding as [|k] eqn:Ek; [lia|].
  rewrite last_app_repeat.
  rewrite Z_of_byte_of_Z, Z.mod_small by lia.
  rewrite Nat2Z.id, length_app, repeat_length.
  replace (length data + S k - S k)%nat with (length data) by lia.
  replace (S k =? 0)%nat with false by (symmetry; apply Nat.eqb_neq; lia).
  replace (length data + S k <? S k)%nat with false
    by (symmetry; apply Nat.ltb_ge; lia).
  cbn [orb].
  rewrite skipn_app_exact, firstn_app_exact by reflexivity.
  now rewrite bytes_Equal_refl.
Qed.

Lemma aescbc_Decrypt_Encrypt key iv plaintext :
  length key = 32%nat -> length iv = aes.BlockSize ->
  exists ciphertext,
    aescbc.Encrypt key iv plaintext = (ciphertext, None) /\
    aescbc.Decrypt key iv ciphertext = (plaintext, None).
Proof.
  intros Hk Hiv. unfold aescbc.Encrypt, aescbc.Decrypt, aes.NewCipher.
  rewrite Hk, Hiv, Nat.eqb_refl. cbn [negb].
  destruct (Pad_length plaintext) as [k Hlen].
  eexists. split; [reflexivity|].
  rewrite Hlen.
  assert (Hd : (aes.BlockSize * S k / aes.BlockSize)%nat = S k).
  { unfold aes.BlockSize. rewrite Nat.mul_comm. now apply Nat.div_mul. }
  rewrite Hd.
  rewrite encryptBlocks_length by assumption.
  rewrite Hd.
  replace (aes.BlockSize * S k mod aes.BlockSize)%nat with 0%nat
    by (unfold aes.BlockSize; rewrite Nat.mul_comm; symmetry;
        now apply Nat.Div0.mod_mul).
  cbn [Nat.eqb negb].
  rewrite decrypt_encryptBlocks by assumption.
  now rewrite Unpad_Pad.
Qed.

(** C4.  Decryption inverts encryption: for every cipher instance (every
    context), master secret and plaintext, [Encrypt] returns a ciphertext
    and no error, and [Decrypt] with the same instance and secret returns
    the plaintext and no error. *)
Theorem AESSHA256_Decrypt_inverts_Encrypt
  (c : cipher.AESSHA256) (s p : bytes) :
  exists ciphertext,
    cipher.AESSHA256_Encrypt c s p = (ciphertext, None) /\
    cipher.AESSHA256_Decrypt c s ciphertext = (p, None).
Proof.
  unfold cipher.AESSHA256_Encrypt, cipher.AESSHA256_Decrypt.
  rewrite deriveAESKeys_blocks. cbv zeta. cbn [cipher.key cipher.iv].
  apply aescbc_Decrypt_Encrypt.
  - apply T_length.
  - rewrite length_firstn, T_length. reflexivity.
Qed.

(** ** X25519 and the shared secret *)

Lemma le_encode_length : forall n z, length (curve25519.le_encode n z) = n.
Proof.
  induction n as [|n IH]; intros z; cbn [curve25519.le_encode length];
    [reflexivity|]. now rewrite IH.
Qed.

Lemma x25519ScalarMult_length scalar point :
  length (curve25519.x25519ScalarMult scalar point) = 32%nat.
Proof.
  unfold curve25519.x25519ScalarMult, curve25519.fe_Swap.
  destruct (curve25519.swap _); apply le_encode_length.
Qed.

Lemma X25519_returns scalar point :
  length scalar = 32%nat -> length point = 32%nat ->
  let out := curve25519.x25519ScalarMult scalar point in
  (out <> make 32 /\ curve25519.X25519 scalar point = (out, None))
  \/ (out = make 32
      /\ curve25519.X25519 scalar point = ([], Some ErrLowOrderPoint)).
Proof.
  intros Hs Hp out. unfold curve25519.X25519, curve25519.PointSize,
    curve25519.ScalarSize.
  rewrite Hs, Hp. cbn [Nat.eqb negb]. fold out.
  clearbody out.
  destruct (bytes_Equal out (make 32)) eqn:E.
  - right. apply bytes_Equal_eq in E. split; [exact E | reflexivity].
  - left. split; [|reflexivity]. intros H.
    rewrite H, bytes_Equal_refl in E. discriminate E.
Qed.

Lemma X25519_success_length scalar point out :
  curve25519.X25519 scalar point = (out, None) -> length out = 32%nat.
Proof.
  pose proof (x25519ScalarMult_length scalar point) as Hlen.
  unfold curve25519.X25519.
  generalize dependent (curve25519.x25519ScalarMult scalar point).
  intros r Hlen.
  destruct (negb _); [discriminate|]. destruct (negb _); [discriminate|].
  destruct (bytes_Equal _ _); [discriminate|].
  intros H. injection H as <-. exact Hlen.
Qed.

(** The reduction by 2^255 = 19 is the remainder modulo p. *)
Lemma fold_eq t :
  x25519fast.fold t = t - (t / 2 ^ 255) * curve25519.p.
Proof.
  unfold x25519fast.fold, curve25519.p.
  rewrite Z.land_ones, Z.shiftr_div_pow2 by lia.
  pose proof (Z.div_mod t (2 ^ 255) ltac:(lia)) as H.
  lia.
Qed.

Lemma reduce_mod x : x25519fast.reduce x = x mod curve25519.p.
Proof.
  unfold x25519fast.reduce.
  destruct ((- curve25519.p <=? x) && (x <? 2 ^ 510)) eqn:E; [|reflexivity].
  apply andb_true_iff in E as [Hlo Hhi].
  apply Z.leb_le in Hlo. apply Z.ltb_lt in Hhi.
  cbv zeta. rewrite !fold_eq.
  set (q1 := x / 2 ^ 255).
  set (y := x - q1 * curve25519.p).
  set (q2 := y / 2 ^ 255).
  assert (Hp : curve25519.p = 2 ^ 255 - 19) by reflexivity.
  assert (Hq1 : -1 <= q1 < 2 ^ 255).
  { unfold q1. split.
    - apply Z.div_le_lower_bound; lia.
    - apply Z.div_lt_upper_bound; [lia|].
      replace (2 ^ 255 * 2 ^ 255) with (2 ^ 510)
        by (rewrite <- Z.pow_add_r; lia).
      lia. }
  pose proof (Z.mul_div_le x (2 ^ 255) ltac:(lia)) as Hx1.
  pose proof (Z.mul_succ_div_gt x (2 ^ 255) ltac:(lia)) as Hx2.
  fold q1 in Hx1, Hx2.
  assert (Hy : 0 <= y < 20 * 2 ^ 255) by (unfold y; nia).
  assert (Hq2 : 0 <= q2 < 20).
  { unfold q2. split.
    - apply Z.div_pos; lia.
    - apply Z.div_lt_upper_bound; lia. }
  pose proof (Z.mul_div_le y (2 ^ 255) ltac:(lia)) as Hy1.
  pose proof (Z.mul_succ_div_gt y (2 ^ 255) ltac:(lia)) as Hy2.
  fold q2 in Hy1, Hy2.
  destruct (Z.leb_spec curve25519.p (y - q2 * curve25519.p)) as [H|H].
  - apply (Z.mod_unique x curve25519.p (q1 + q2 + 1)); [left; nia|].
    unfold y. ring.
  - apply (Z.mod_unique x curve25519.p (q1 + q2)); [left; nia|].
    unfold y. ring.
Qed.

Lemma fast_ladder_step x1 b s :
  x25519fast.ladder_step x1 b s = curve25519.ladder_step x1 b s.
Proof.
  unfold x25519fast.ladder_step, curve25519.ladder_step, curve25519.fe_Swap.
  destruct (xorb (curve25519.swap s) b); cbv zeta;
    rewrite !reduce_mod; reflexivity.
Qed.

Lemma fast_ladder_loop e x1 : forall n s,
  x25519fast.ladder_loop n e x1 s = curve25519.ladder_loop n e x1 s.
Proof.
  induction n as [|n IH]; intros s; [reflexivity|].
  cbn [x25519fast.ladder_loop curve25519.ladder_loop].
  now rewrite fast_ladder_step, IH.
Qed.

Lemma fast_pow b : forall e, x25519fast.pow b e = curve25519.fe_pow b e.
Proof.
  induction e as [e IH|e IH|]; cbn [x25519fast.pow curve25519.fe_pow];
    cbv zeta; rewrite ?reduce_mod, ?IH; reflexivity.
Qed.

Lemma fast_x25519ScalarMult scalar point :
  curve25519.x25519ScalarMult scalar point
  = x25519fast.x25519ScalarMult scalar point.
Proof.
  unfold x25519fast.x25519ScalarMult, curve25519.x25519ScalarMult.
  rewrite fast_ladder_loop. cbv zeta.
  destruct (curve25519.fe_Swap _ _ _) as [x2 x3].
  destruct (curve25519.fe_Swap _ _ _) as [z2 z3].
  now rewrite fast_pow, reduce_mod.
Qed.

Lemma fast_X25519 scalar point :
  curve25519.X25519 scalar point = x25519fast.X25519 scalar point.
Proof.
  unfold curve25519.X25519, x25519fast.X25519.
  now rewrite fast_x25519ScalarMult.
Qed.

(** Generated key pairs have both halves, 32 bytes each. *)
Lemma generated_pair_lengths src pair :
  crypto.Curve25519GenerateKey src = (pair, None) ->
  length (crypto.PrivateKey pair) = 32%nat
  /\ length (crypto.PublicKey pair) = 32%nat.
Proof.
  unfold crypto.Curve25519GenerateKey, crypto.Curve25519PrivateKey_PubKey.
  destruct src as [r|]; cbn [rand.Read]; [|discriminate].
  destruct (curve25519.X25519 _ curve25519.Basepoint) as [pub err] eqn:E.
  intros H. injection H as <- ->. cbn [crypto.PrivateKey crypto.PublicKey].
  split.
  - reflexivity.
  - now apply X25519_success_length in E.
Qed.

(** The public key of the all-zero private scalar. *)
Lemma PubKey_of_the_zero_scalar :
  hex.returns (crypto.Curve25519PrivateKey_PubKey (make 32))
    "2fe57da347cd62431528daac5fbb290730fff684afc4cfc2ed90995f58cb3b74"
  = true.
Proof.
  unfold crypto.Curve25519PrivateKey_PubKey. rewrite fast_X25519.
  vm_cast_no_check (eq_refl true).
Qed.

(** C3, as it is stated, fails.  The pair that
    [Curve25519GenerateFromPrivate] makes from the all-zero private scalar
    has both halves, 32 bytes each.  The one-time key with id 1 that holds
    it is pickled to 69 bytes and read back with 69 bytes consumed and no
    error, but without its private key: the record that is read back is
    not [Equal] to the original one. *)
Lemma OneTimeKey_of_the_zero_scalar_is_not_read_back :
  let pub :=
    hex.decode
      "2fe57da347cd62431528daac5fbb290730fff684afc4cfc2ed90995f58cb3b74" in
  let pair := crypto.mkCurve25519KeyPair (make 32) pub in
  let x := crypto.mkOneTimeKey 1 false pair in
  let c0 := crypto.mkOneTimeKey 0 false (crypto.mkCurve25519KeyPair [] []) in
  let pickled :=
    libolmpickle.Bytes
      (crypto.OneTimeKey_PickleLibOlm x libolmpickle.NewEncoder) in
  crypto.Curve25519GenerateFromPrivate (make 32) = (pair, None)
  /\ length (crypto.PrivateKey pair) = 32%nat
  /\ length (crypto.PublicKey pair) = 32%nat
  /\ length pickled = 69%nat
  /\ exists y,
       crypto.OneTimeKey_UnpickleLibOlm c0 pickled = (y, (69%nat, None))
       /\ crypto.PrivateKey (crypto.Key y) = []
       /\ crypto.OneTimeKey_Equal y x = false.
Proof.
  cbv zeta. split.
  - pose proof PubKey_of_the_zero_scalar as E.
    unfold crypto.Curve25519GenerateFromPrivate.
    destruct (crypto.Curve25519PrivateKey_PubKey (make 32))
      as [publicKey [e|]]; [discriminate E|].
    apply bytes_Equal_eq in E. now rewrite E.
  - split; [reflexivity|]. split; [reflexivity|]. split; [reflexivity|].
    eexists. split; [vm_compute; reflexivity|].
    split; [reflexivity | vm_compute; reflexivity].
Qed.

(** C6, as the code has it.  [SharedSecret] hands both keys to [X25519]
    and returns its result and its error unchanged.  A peer public key
    that has not 32 bytes is refused, and so is a private key that has not
    32 bytes.  For a private key and a peer public key of 32 bytes each
    the result is either the 32 bytes of the scalar multiplication, not
    all zero, and no error, or, when the multiplication gives the all-zero
    value, as it does for a peer key that is a low-order point, the
    low-order-point error and no bytes. *)
Theorem SharedSecret_returns_32_bytes_or_refuses_low_order_point
  (c : crypto.Curve25519PrivateKey) (pubKey : crypto.Curve25519PublicKey) :
  let out := curve25519.x25519ScalarMult c pubKey in
  crypto.Curve25519PrivateKey_SharedSecret c pubKey
  = curve25519.X25519 c pubKey
  /\ (length pubKey <> 32%nat ->
      crypto.Curve25519PrivateKey_SharedSecret c pubKey
      = ([], Some ErrInvalidPublicKey))
  /\ (length pubKey = 32%nat -> length c <> 32%nat ->
      crypto.Curve25519PrivateKey_SharedSecret c pubKey
      = ([], Some ErrInvalidPrivateKeySize))
  /\ (length pubKey = 32%nat -> length c = 32%nat ->
      length out = 32%nat
      /\ ((out <> make 32
           /\ crypto.Curve25519PrivateKey_SharedSecret c pubKey
              = (out, None))
          \/ (out = make 32
              /\ crypto.Curve25519PrivateKey_SharedSecret c pubKey
                 = ([], Some ErrLowOrderPoint)))).
Proof.
  intros out. split; [reflexivity|].
  unfold crypto.Curve25519PrivateKey_SharedSecret.
  split; [|split].
  - intros Hp. unfold curve25519.X25519, curve25519.PointSize.
    apply Nat.eqb_neq in Hp. now rewrite Hp.
  - intros Hp Hc. unfold curve25519.X25519, curve25519.PointSize,
      curve25519.ScalarSize.
    apply Nat.eqb_neq in Hc. now rewrite Hp, Hc.
  - intros Hp Hc. split; [apply x25519ScalarMult_length|].
    apply X25519_returns; assumption.
Qed.

Lemma SharedSecret_returns_32_bytes_or_refuses_low_order_point_witness :
  let c := repeat x07 32 in
  let pubKey := make 32 in
  let out := curve25519.x25519ScalarMult c pubKey in
  length out = 32%nat
  /\ ((out <> make 32
       /\ crypto.Curve25519PrivateKey_SharedSecret c pubKey = (out, None))
      \/ (out = make 32
          /\ crypto.Curve25519PrivateKey_SharedSecret c pubKey
             = ([], Some ErrLowOrderPoint))).
Proof.
  apply (SharedSecret_returns_32_bytes_or_refuses_low_order_point
           (repeat x07 32) (make 32)); reflexivity.
Defined.

(** C6, as the specification states it, fails: the all-zero peer public
    key has 32 bytes and is a low-order point, and [SharedSecret] returns
    the low-order-point error for it instead of 32 bytes; and an absent
    private key is refused for its length. *)
Lemma SharedSecret_refuses_the_zero_point :
  crypto.Curve25519PrivateKey_SharedSecret (repeat x07 32) (make 32)
  = ([], Some ErrLowOrderPoint)
  /\ length (make 32) = 32%nat
  /\ crypto.Curve25519PrivateKey_SharedSecret [] curve25519.Basepoint
     = ([], Some ErrInvalidPrivateKeySize).
Proof. vm_compute. repeat split. Qed.


(** ** More on the AES-SHA256 cipher *)

Lemma okm_parts key kdfInfo :
  let okm := rfc5869.HKDF key [] kdfInfo 80 in
  let prk := rfc5869.Extract [] key in
  firstn 32 okm = rfc5869.T prk kdfInfo 1
  /\ firstn 32 (skipn 32 okm) = rfc5869.T prk kdfInfo 2
  /\ skipn 64 okm = firstn 16 (rfc5869.T prk kdfInfo 3).
Proof.
  intros okm prk. subst okm. unfold rfc5869.HKDF. rewrite Expand_80.
  fold prk.
  change (firstn 32 (skipn 32 ?l)) with (firstn (64 - 32) (skipn 32 l)).
  rewrite split_first, split_second, split_third by apply T_length.
  repeat split.
Qed.

Lemma deriveAESKeys_of_okm kdfInfo key :
  let okm := rfc5869.HKDF key [] kdfInfo 80 in
  cipher.deriveAESKeys kdfInfo key
  = (cipher.mkDerivedAESKeys (firstn 32 okm) (firstn 32 (skipn 32 okm))
                             (skipn 64 okm), None)
  /\ length (firstn 32 okm) = 32%nat
  /\ length (skipn 64 okm) = 16%nat.
Proof.
  intros okm. destruct (okm_parts key kdfInfo) as (H1 & H2 & H3).
  cbv zeta in H1, H2, H3. fold okm in H1, H2, H3.
  rewrite H1, H2, H3. split; [apply deriveAESKeys_blocks|].
  split; [apply T_length|].
  rewrite length_firstn, T_length. reflexivity.
Qed.

(** X1.  [AESSHA256.Verify] answers true exactly for the prefixes of the
    genuine tag: it returns [(true, nil)] if and only if the given tag has at
    most 32 bytes and equals the first bytes of [MAC(key, message)], and
    [(false, nil)] if and only if it has at most 32 bytes and differs from
    them.  It never returns an error, and the empty tag is accepted for
    every key and message. *)
Theorem Verify_is_true_exactly_on_prefixes_of_the_tag
  (c : cipher.AESSHA256) (s m t : bytes) :
  (cipher.AESSHA256_Verify c s m t = Returns (true, None)
   <-> (length t <= 32)%nat
       /\ t = firstn (length t) (fst (cipher.AESSHA256_MAC c s m)))
  /\ (cipher.AESSHA256_Verify c s m t = Returns (false, None)
      <-> (length t <= 32)%nat
          /\ t <> firstn (length t) (fst (cipher.AESSHA256_MAC c s m)))
  /\ (forall b e, cipher.AESSHA256_Verify c s m t <> Returns (b, Some e))
  /\ cipher.AESSHA256_Verify c s m [] = Returns (true, None).
Proof.
  unfold cipher.AESSHA256_Verify.
  destruct (AESSHA256_MAC_returns c s m) as [mac [-> Hlen]].
  cbn [fst]. unfold slice_to. rewrite Hlen. cbn [length Nat.leb firstn].
  split; [|split; [|split]].
  - destruct (Nat.leb_spec (length t) 32) as [H|H].
    + split.
      * intros E. injection E as E. apply bytes_Equal_eq in E. now split.
      * intros [_ E]. apply bytes_Equal_eq in E. now rewrite E.
    + split; [discriminate | lia].
  - destruct (Nat.leb_spec (length t) 32) as [H|H].
    + split.
      * intros E. injection E as E. split; [exact H|].
        intros E'. apply bytes_Equal_eq in E'. congruence.
      * intros [_ E].
        destruct (bytes_Equal t (firstn (length t) mac)) eqn:E'; [|reflexivity].
        apply bytes_Equal_eq in E'. contradiction.
    + split; [discriminate | lia].
  - intros b e. destruct (length t <=? 32)%nat; discriminate.
  - reflexivity.
Qed.

(** X2.  [AESSHA256.MAC] never fails: it returns the HMAC-SHA256 of the
    message under bytes 32-63 of the HKDF output for the key, the empty salt
    and the cipher's context, 32 bytes, and no error. *)
Theorem MAC_is_HMAC_under_the_second_derived_key
  (c : cipher.AESSHA256) (s m : bytes) :
  let okm := rfc5869.HKDF s [] (cipher.kdfInfo c) 80 in
  cipher.AESSHA256_MAC c s m
  = (crypto.HMACSHA256 (firstn 32 (skipn 32 okm)) m, None)
  /\ length (fst (cipher.AESSHA256_MAC c s m)) = 32%nat.
Proof.
  intros okm. unfold cipher.AESSHA256_MAC.
  destruct (deriveAESKeys_of_okm (cipher.kdfInfo c) s) as (-> & _ & _).
  cbv zeta. cbn [cipher.hmacKey fst].
  split; [reflexivity | apply HMACSHA256_length].
Qed.

Lemma Pad_length_exact data :
  length (pkcs7.Pad data 16) = (16 * (length data / 16 + 1))%nat.
Proof.
  unfold pkcs7.Pad. rewrite length_app, repeat_length.
  pose proof (Nat.div_mod_eq (length data) 16).
  pose proof (Nat.mod_upper_bound (length data) 16). lia.
Qed.

Lemma AESSHA256_Encrypt_blocks c s p :
  let okm := rfc5869.HKDF s [] (cipher.kdfInfo c) 80 in
  cipher.AESSHA256_Encrypt c s p
  = (cbc.encryptBlocks (length p / 16 + 1)
       (aes.expandKey (firstn 32 okm)) (skipn 64 okm) (pkcs7.Pad p 16),
     None).
Proof.
  intros okm. unfold cipher.AESSHA256_Encrypt.
  destruct (deriveAESKeys_of_okm (cipher.kdfInfo c) s) as (-> & Hk & Hiv).
  cbv zeta in Hk, Hiv. fold okm in Hk, Hiv.
  cbn [cipher.key cipher.iv]. fold okm.
  unfold aescbc.Encrypt, aes.NewCipher. rewrite Hk, Hiv.
  change aes.BlockSize with 16%nat. cbn [Nat.eqb negb].
  rewrite Pad_length_exact.
  replace (16 * (length p / 16 + 1) / 16)%nat with (length p / 16 + 1)%nat
    by (rewrite Nat.mul_comm, Nat.div_mul; lia).
  reflexivity.
Qed.

(** X3.  [AESSHA256.Encrypt] never fails, and its ciphertext is the
    plaintext padded to the next multiple of the block: 16 * (n / 16 + 1)
    bytes for a plaintext of [n] bytes, so longer than the plaintext by 1
    to 16 bytes (a whole block of padding when [n] is a multiple of 16). *)
Theorem Encrypt_never_fails_and_pads_to_the_next_block
  (c : cipher.AESSHA256) (s p : bytes) :
  exists ciphertext,
    cipher.AESSHA256_Encrypt c s p = (ciphertext, None)
    /\ length ciphertext = (16 * (length p / 16 + 1))%nat
    /\ (length p < length ciphertext <= length p + 16)%nat.
Proof.
  rewrite AESSHA256_Encrypt_blocks. cbv zeta. eexists.
  split; [reflexivity|].
  assert (H : length (cbc.encryptBlocks (length p / 16 + 1)
                 (aes.expandKey
                    (firstn 32 (rfc5869.HKDF s [] (cipher.kdfInfo c) 80)))
                 (skipn 64 (rfc5869.HKDF s [] (cipher.kdfInfo c) 80))
                 (pkcs7.Pad p 16))
              = (16 * (length p / 16 + 1))%nat).
  { apply (encryptBlocks_length _ (length p / 16 + 1)).
    - apply (deriveAESKeys_of_okm (cipher.kdfInfo c) s).
    - apply Pad_length_exact. }
  split; [exact H|]. rewrite H.
  pose proof (Nat.div_mod_eq (length p) 16).
  pose proof (Nat.mod_upper_bound (length p) 16). lia.
Qed.

Lemma encryptBlocks_app b : forall k iv q r m,
  length iv = 16%nat -> length q = (16 * k)%nat ->
  firstn (16 * k) (cbc.encryptBlocks (k + m) b iv (q ++ r))
  = cbc.encryptBlocks k b iv q.
Proof.
  induction k as [|k IH]; intros iv q r m Hiv Hq.
  - reflexivity.
  - cbn [Nat.add cbc.encryptBlocks]. change aes.BlockSize with 16%nat.
    destruct (firstn_skipn_length 16 q (16 * k)) as [Hf Hs]; [lia|].
    rewrite (firstn_app 16 q r), (skipn_app 16 q r), Hq.
    replace (16 - 16 * S k)%nat with 0%nat by lia.
    rewrite firstn_O, skipn_O, app_nil_r.
    set (c0 := aes.Encrypt b (xor_bytes (firstn 16 q) iv)).
    assert (Hc : length c0 = 16%nat).
    { unfold c0. rewrite aes_Encrypt_length, xor_bytes_length; lia. }
    replace (16 * S k)%nat with (16 + 16 * k)%nat by lia.
    rewrite firstn_app, Hc.
    rewrite (firstn_all2 (n := 16 + 16 * k) c0) by lia.
    replace (16 + 16 * k - 16)%nat with (16 * k)%nat by lia.
    now rewrite IH.
Qed.

Lemma Pad_app q r :
  (length q mod 16 = 0)%nat -> pkcs7.Pad (q ++ r) 16 = q ++ pkcs7.Pad r 16.
Proof.
  intros Hq. unfold pkcs7.Pad. rewrite length_app, <- app_assoc.
  replace ((length q + length r) mod 16)%nat with (length r mod 16)%nat.
  - reflexivity.
  - rewrite Nat.Div0.add_mod, Hq, Nat.add_0_l. now rewrite Nat.Div0.mod_mod.
Qed.

(** X4.  The IV is derived from the key alone, so [AESSHA256.Encrypt] is
    deterministic on prefixes: two plaintexts that share their first [k]
    blocks give, under the same key and context, ciphertexts that share
    their first [k] blocks. *)
Theorem Encrypt_repeats_the_blocks_of_a_common_prefix
  (c : cipher.AESSHA256) (s q r1 r2 : bytes) (k : nat) :
  length q = (16 * k)%nat ->
  firstn (16 * k) (fst (cipher.AESSHA256_Encrypt c s (q ++ r1)))
  = firstn (16 * k) (fst (cipher.AESSHA256_Encrypt c s (q ++ r2))).
Proof.
  intros Hq.
  assert (Hmod : (length q mod 16 = 0)%nat)
    by (rewrite Hq, Nat.mul_comm; apply Nat.Div0.mod_mul).
  assert (Hdiv : forall r, (length (q ++ r) / 16 + 1
                            = k + (length r / 16 + 1))%nat).
  { intros r. rewrite length_app, Hq.
    rewrite (Nat.mul_comm 16 k), Nat.div_add_l by lia. lia. }
  rewrite !AESSHA256_Encrypt_blocks. cbv zeta. cbn [fst].
  rewrite !Pad_app, !Hdiv by exact Hmod.
  assert (Hiv : length (skipn 64 (rfc5869.HKDF s [] (cipher.kdfInfo c) 80))
                = 16%nat)
    by apply (deriveAESKeys_of_okm (cipher.kdfInfo c) s).
  now rewrite !encryptBlocks_app by assumption.
Qed.

Lemma Encrypt_repeats_the_blocks_of_a_common_prefix_witness :
  firstn (16 * 1)
    (fst (cipher.AESSHA256_Encrypt (cipher.NewAESSHA256 [x4f]) (make 32)
            (repeat x41 16 ++ [x01])))
  = firstn (16 * 1)
      (fst (cipher.AESSHA256_Encrypt (cipher.NewAESSHA256 [x4f]) (make 32)
              (repeat x41 16 ++ [x02; x03]))).
Proof.
  apply (Encrypt_repeats_the_blocks_of_a_common_prefix
           (cipher.NewAESSHA256 [x4f]) (make 32) (repeat x41 16)
           [x01] [x02; x03] 1).
  reflexivity.
Defined.


(** ** More on the keys and their pickles *)

(** X5.  [OneTimeKey.Equal] holds exactly when the two records have the
    same id, the same flag and the same bytes in both halves of the key
    pair (with [bytes.Equal], for which the nil and the empty slice are the
    same). *)
Theorem OneTimeKey_Equal_is_equality_of_the_fields
  (otk s : crypto.OneTimeKey) :
  crypto.OneTimeKey_Equal otk s = true <-> otk = s.
Proof.
  destruct otk as [id1 p1 [priv1 pub1]], s as [id2 p2 [priv2 pub2]].
  unfold crypto.OneTimeKey_Equal, crypto.Curve25519PrivateKey_Equal,
    crypto.Curve25519PublicKey_Equal.
  cbn [crypto.ID crypto.Published crypto.Key crypto.PrivateKey
       crypto.PublicKey].
  split.
  - destruct (Z.eqb_spec id1 id2) as [->|]; [|discriminate].
    destruct (Bool.eqb p1 p2) eqn:Ep; [|discriminate].
    apply Bool.eqb_prop in Ep. subst p2.
    destruct (bytes_Equal priv1 priv2) eqn:E1; [|discriminate].
    destruct (bytes_Equal pub1 pub2) eqn:E2; [|discriminate].
    apply bytes_Equal_eq in E1, E2. now subst.
  - intros H. injection H as -> -> -> ->.
    now rewrite Z.eqb_refl, Bool.eqb_reflx, !bytes_Equal_refl.
Qed.

Lemma UnpickleBytes_cases value n :
  libolmpickle.UnpickleBytes value n
  = if (length value <? n)%nat then ([], 0%nat, Some TruncatedInputError)
    else (if libolmpickle.zero_filled (firstn n value) then []
          else firstn n value, n, None).
Proof.
  unfold libolmpickle.UnpickleBytes.
  destruct (length value <? n)%nat; [reflexivity|]. cbv zeta.
  now destruct (libolmpickle.zero_filled (firstn n value)).
Qed.

Lemma KeyPair_unpickle_cases
  (c : crypto.Curve25519KeyPair) (value : bytes) :
  let field (b : bytes) := if libolmpickle.zero_filled b then [] else b in
  crypto.Curve25519KeyPair_UnpickleLibOlm c value
  = if (length value <? 32)%nat
    then (c, (0%nat, Some TruncatedInputError))
    else if (length value <? 64)%nat
    then (crypto.mkCurve25519KeyPair (crypto.PrivateKey c)
                                     (field (firstn 32 value)),
          (32%nat, Some TruncatedInputError))
    else (crypto.mkCurve25519KeyPair (field (firstn 32 (skipn 32 value)))
                                     (field (firstn 32 value)),
          (64%nat, None)).
Proof.
  cbv zeta.
  unfold crypto.Curve25519KeyPair_UnpickleLibOlm,
    crypto.Curve25519PublicKey_UnpickleLibOlm,
    crypto.Curve25519PublicKeyLength, crypto.Curve25519PrivateKeyLength,
    curve25519.ScalarSize.
  rewrite !UnpickleBytes_cases.
  destruct (Nat.ltb_spec (length value) 32) as [H1|H1].
  - now destruct c.
  - cbv beta iota zeta. cbn [crypto.PublicKey crypto.PrivateKey].
    rewrite UnpickleBytes_cases, length_skipn.
    destruct (Nat.ltb_spec (length value - 32) 32) as [H2|H2];
      destruct (Nat.ltb_spec (length value) 64) as [H3|H3]; try lia;
      reflexivity.
Qed.

(** X7.  [Curve25519KeyPair.UnpickleLibOlm] on every input.  It succeeds
    exactly when the value has at least 64 bytes, consumes 64 and sets the
    public key from bytes 0-31 and the private key from bytes 32-63, where
    a field that is all zero is read as the absent value.  Its only error
    is the truncation error, which leaves the private key as it was: below
    32 bytes nothing is changed and the count is 0; from 32 to 63 bytes the
    public key is already overwritten and the count is 32. *)
Theorem KeyPair_unpickle_on_every_input
  (c : crypto.Curve25519KeyPair) (value : bytes) :
  let field (b : bytes) := if libolmpickle.zero_filled b then [] else b in
  match crypto.Curve25519KeyPair_UnpickleLibOlm c value with
  | (c', (n, None)) =>
      (64 <= length value)%nat /\ n = 64%nat
      /\ crypto.PublicKey c' = field (firstn 32 value)
      /\ crypto.PrivateKey c' = field (firstn 32 (skipn 32 value))
  | (c', (n, Some e)) =>
      e = TruncatedInputError
      /\ crypto.PrivateKey c' = crypto.PrivateKey c
      /\ (((length value < 32)%nat /\ n = 0%nat /\ c' = c)
          \/ ((32 <= length value < 64)%nat /\ n = 32%nat
              /\ crypto.PublicKey c' = field (firstn 32 value)))
  end.
Proof.
  cbv zeta. rewrite KeyPair_unpickle_cases. cbv zeta.
  destruct (Nat.ltb_spec (length value) 32) as [H1|H1].
  - split; [reflexivity|]. split; [reflexivity|]. left.
    split; [exact H1|]. split; reflexivity.
  - destruct (Nat.ltb_spec (length value) 64) as [H2|H2].
    + split; [reflexivity|]. split; [reflexivity|]. right.
      split; [lia|]. split; reflexivity.
    + split; [exact H2|]. split; [reflexivity|]. split; reflexivity.
Qed.

Lemma UnpickleUInt32_cases value :
  libolmpickle.UnpickleUInt32 value
  = if (length value <? 4)%nat then (0, 0%nat, Some TruncatedInputError)
    else (be_uint32 (nth 0 value x00) (nth 1 value x00)
                    (nth 2 value x00) (nth 3 value x00), 4%nat, None).
Proof.
  destruct value as [|b0 [|b1 [|b2 [|b3 r]]]]; reflexivity.
Qed.

Lemma UnpickleBool_cases value :
  libolmpickle.UnpickleBool value
  = if (length value <? 1)%nat then (false, 0%nat, Some TruncatedInputError)
    else (negb (Byte.eqb (nth 0 value x00) x00), 1%nat, None).
Proof. destruct value; reflexivity. Qed.

(** X6.  [OneTimeKey.UnpickleLibOlm] on every input.  With fewer than 69
    bytes it returns the truncation error and the count 0, whatever it has
    read, and it has then already overwritten the fields that were
    complete: the id from 4 bytes on, the flag from 5, the public key from
    37; the private key is kept.  With 69 bytes or more it returns 69 and
    no error, and the record holds the big-endian id, the flag (any byte
    other than zero is true) and the two 32-byte halves, each read as the
    absent value when it is all zero. *)
Theorem OneTimeKey_unpickle_on_every_input
  (c : crypto.OneTimeKey) (value : bytes) :
  let id := be_uint32 (nth 0 value x00) (nth 1 value x00)
                      (nth 2 value x00) (nth 3 value x00) in
  let published := negb (Byte.eqb (nth 4 value x00) x00) in
  let field (b : bytes) := if libolmpickle.zero_filled b then [] else b in
  let pub := field (firstn 32 (skipn 5 value)) in
  let priv := field (firstn 32 (skipn 37 value)) in
  crypto.OneTimeKey_UnpickleLibOlm c value
  = if (length value <? 4)%nat
    then (c, (0%nat, Some TruncatedInputError))
    else if (length value <? 5)%nat
    then (crypto.mkOneTimeKey id (crypto.Published c) (crypto.Key c),
          (0%nat, Some TruncatedInputError))
    else if (length value <? 37)%nat
    then (crypto.mkOneTimeKey id published (crypto.Key c),
          (0%nat, Some TruncatedInputError))
    else if (length value <? 69)%nat
    then (crypto.mkOneTimeKey id published
            (crypto.mkCurve25519KeyPair
               (crypto.PrivateKey (crypto.Key c)) pub),
          (0%nat, Some TruncatedInputError))
    else (crypto.mkOneTimeKey id published
            (crypto.mkCurve25519KeyPair priv pub),
          (69%nat, None)).
Proof.
  cbv zeta. unfold crypto.OneTimeKey_UnpickleLibOlm.
  rewrite UnpickleUInt32_cases.
  destruct (Nat.ltb_spec (length value) 4) as [H4|H4]; [reflexivity|].
  cbn [Nat.add]. rewrite UnpickleBool_cases, length_skipn.
  destruct (Nat.ltb_spec (length value) 5) as [H5|H5].
  { replace (length value - 4 <? 1)%nat with true
      by (symmetry; apply Nat.ltb_lt; lia).
    reflexivity. }
  replace (length value - 4 <? 1)%nat with false
    by (symmetry; apply Nat.ltb_ge; lia).
  cbn [Nat.add crypto.ID crypto.Published crypto.Key].
  rewrite KeyPair_unpickle_cases, length_skipn. cbv zeta.
  rewrite skipn_skipn. cbn [Nat.add].
  assert (Hnth : nth 0 (skipn 4 value) x00 = nth 4 value x00).
  { rewrite nth_skipn. reflexivity. }
  rewrite Hnth.
  destruct (Nat.ltb_spec (length value) 37) as [H37|H37].
  { replace (length value - 5 <? 32)%nat with true
      by (symmetry; apply Nat.ltb_lt; lia).
    destruct c as [i p k]. reflexivity. }
  replace (length value - 5 <? 32)%nat with false
    by (symmetry; apply Nat.ltb_ge; lia).
  destruct (Nat.ltb_spec (length value) 69) as [H69|H69].
  { replace (length value - 5 <? 64)%nat with true
      by (symmetry; apply Nat.ltb_lt; lia).
    reflexivity. }
  replace (length value - 5 <? 64)%nat with false
    by (symmetry; apply Nat.ltb_ge; lia).
  reflexivity.
Qed.

(** X8.  Unpickling what [Curve25519KeyPair.PickleLibOlm] wrote always
    succeeds with 64 bytes consumed and gives the pair in which every half
    that had not 32 bytes, or was all zero, is absent.  That pair pickles
    to the same bytes, and it is the original pair when each half was
    absent or had 32 bytes that were not all zero. *)
Theorem KeyPair_pickle_then_unpickle_drops_zero_halves
  (c x : crypto.Curve25519KeyPair) :
  let field (k : bytes) :=
    if (length k =? 32)%nat && negb (libolmpickle.zero_filled k)
    then k else [] in
  let whole (k : bytes) :=
    k = [] \/ (length k = 32%nat /\ libolmpickle.zero_filled k = false) in
  let y := crypto.mkCurve25519KeyPair (field (crypto.PrivateKey x))
                                      (field (crypto.PublicKey x)) in
  crypto.Curve25519KeyPair_UnpickleLibOlm c
    (libolmpickle.Bytes
       (crypto.Curve25519KeyPair_PickleLibOlm x libolmpickle.NewEncoder))
  = (y, (64%nat, None))
  /\ crypto.Curve25519KeyPair_PickleLibOlm y libolmpickle.NewEncoder
     = crypto.Curve25519KeyPair_PickleLibOlm x libolmpickle.NewEncoder
  /\ (whole (crypto.PrivateKey x) -> whole (crypto.PublicKey x) -> y = x).
Proof.
  cbv zeta.
  assert (Hread : forall k : bytes,
    (if libolmpickle.zero_filled
          (if (length k =? 32)%nat then k else repeat x00 32)
     then []
     else if (length k =? 32)%nat then k else repeat x00 32)
    = (if (length k =? 32)%nat && negb (libolmpickle.zero_filled k)
       then k else [])).
  { intros k. destruct (length k =? 32)%nat; cbn [andb].
    - now destruct (libolmpickle.zero_filled k).
    - now rewrite zero_filled_repeat. }
  assert (Hwrite : forall k : bytes,
    (if (length (if (length k =? 32)%nat
                      && negb (libolmpickle.zero_filled k)
                 then k else []) =? 32)%nat
     then if (length k =? 32)%nat && negb (libolmpickle.zero_filled k)
          then k else []
     else repeat x00 32)
    = (if (length k =? 32)%nat then k else repeat x00 32)).
  { intros k. destruct (Nat.eqb_spec (length k) 32) as [H|H]; cbn [andb].
    - destruct (libolmpickle.zero_filled k) eqn:Hz; cbn [negb length Nat.eqb].
      + rewrite (zero_filled_eq k Hz), H. reflexivity.
      + apply Nat.eqb_eq in H. now rewrite H.
    - reflexivity. }
  assert (Hwhole : forall k : bytes,
    k = [] \/ (length k = 32%nat /\ libolmpickle.zero_filled k = false) ->
    (if (length k =? 32)%nat && negb (libolmpickle.zero_filled k)
     then k else []) = k).
  { intros k [->|[Hl Hz]]; [reflexivity|]. now rewrite Hl, Hz. }
  unfold libolmpickle.Bytes. rewrite !KeyPair_pickle.
  cbn [crypto.PublicKey crypto.PrivateKey libolmpickle.NewEncoder app].
  split; [|split].
  - rewrite <- (app_nil_r (if (length (crypto.PrivateKey x) =? 32)%nat
                           then _ else _)).
    rewrite KeyPair_unpickle by apply fixed_field_length.
    now rewrite !Hread.
  - now rewrite !Hwrite.
  - intros H1 H2. rewrite (Hwhole _ H1), (Hwhole _ H2). now destruct x.
Qed.

(** X9.  [OneTimeKey.UnpickleLibOlm] reads a pickle from the front of a
    longer value: for a record with a 32-bit id and two 32-byte halves,
    neither of them all zero, the pickle followed by any bytes is read back
    as the record, with 69 bytes consumed, and the bytes after the count
    are the ones that followed. *)
Theorem OneTimeKey_unpickle_ignores_what_follows
  (x c0 : crypto.OneTimeKey) (rest : bytes) :
  0 <= crypto.ID x < 2 ^ 32 ->
  length (crypto.PrivateKey (crypto.Key x)) = 32%nat ->
  length (crypto.PublicKey (crypto.Key x)) = 32%nat ->
  libolmpickle.zero_filled (crypto.PrivateKey (crypto.Key x)) = false ->
  libolmpickle.zero_filled (crypto.PublicKey (crypto.Key x)) = false ->
  let pickled :=
    libolmpickle.Bytes
      (crypto.OneTimeKey_PickleLibOlm x libolmpickle.NewEncoder) in
  crypto.OneTimeKey_UnpickleLibOlm c0 (pickled ++ rest) = (x, (69%nat, None))
  /\ skipn 69 (pickled ++ rest) = rest.
Proof.
  intros Hid Hpriv Hpub Hzpriv Hzpub pickled. subst pickled.
  unfold libolmpickle.Bytes.
  rewrite OneTimeKey_pickle. rewrite Hpriv, Hpub. cbn [Nat.eqb].
  split.
  - unfold crypto.OneTimeKey_UnpickleLibOlm.
    rewrite <- !app_assoc.
    rewrite UnpickleUInt32_WriteUInt32 by exact Hid.
    cbn [Nat.add].
    rewrite (skipn_app_exact _ _ 4) by reflexivity.
    rewrite UnpickleBool_WriteBool.
    cbn [Nat.add].
    rewrite app_assoc, (skipn_app_exact _ _ 5) by reflexivity.
    cbn [crypto.Key crypto.ID crypto.Published].
    rewrite (KeyPair_unpickle _ _ _ rest Hpub Hpriv), Hzpriv, Hzpub.
    destruct x as [id published [priv pub]]. reflexivity.
  - apply skipn_app_exact. rewrite !length_app, Hpriv, Hpub. reflexivity.
Qed.

Lemma OneTimeKey_unpickle_ignores_what_follows_witness :
  let x := crypto.mkOneTimeKey 7 true
             (crypto.mkCurve25519KeyPair (repeat x05 32) (repeat x06 32)) in
  let c0 := crypto.mkOneTimeKey 0 false (crypto.mkCurve25519KeyPair [] []) in
  let rest := [x01; x02; x03] in
  let pickled :=
    libolmpickle.Bytes
      (crypto.OneTimeKey_PickleLibOlm x libolmpickle.NewEncoder) in
  crypto.OneTimeKey_UnpickleLibOlm c0 (pickled ++ rest) = (x, (69%nat, None))
  /\ skipn 69 (pickled ++ rest) = rest.
Proof.
  apply (OneTimeKey_unpickle_ignores_what_follows
           (crypto.mkOneTimeKey 7 true
              (crypto.mkCurve25519KeyPair (repeat x05 32) (repeat x06 32)))
           (crypto.mkOneTimeKey 0 false (crypto.mkCurve25519KeyPair [] []))
           [x01; x02; x03]).
  - cbn; lia.
  - reflexivity.
  - reflexivity.
  - reflexivity.
  - reflexivity.
Defined.

Lemma X25519_error scalar point out e :
  curve25519.X25519 scalar point = (out, Some e) ->
  out = []
  /\ ((e = ErrInvalidPublicKey /\ length point <> 32%nat)
      \/ (e = ErrInvalidPrivateKeySize /\ length scalar <> 32%nat)
      \/ (e = ErrLowOrderPoint /\ length point = 32%nat
          /\ length scalar = 32%nat)).
Proof.
  unfold curve25519.X25519, curve25519.PointSize, curve25519.ScalarSize.
  generalize (curve25519.x25519ScalarMult scalar point). intros r.
  destruct (Nat.eqb_spec (length point) 32) as [Hp|Hp]; cbn [negb].
  - destruct (Nat.eqb_spec (length scalar) 32) as [Hs|Hs]; cbn [negb].
    + destruct (bytes_Equal r (make 32)); [|discriminate].
      intros H. injection H as <- <-. split; [reflexivity|].
      right. right. split; [reflexivity|]. split; assumption.
    + intros H. injection H as <- <-. split; [reflexivity|].
      right. left. split; [reflexivity | assumption].
  - intros H. injection H as <- <-. split; [reflexivity|].
    left. split; [reflexivity | assumption].
Qed.

(** X10.  [Curve25519GenerateKey]: when it returns no error, both halves
    of the pair have 32 bytes, the public key is [PubKey] of the private
    key, and [Curve25519GenerateFromPrivate] on the private key rebuilds the
    same pair.  When it returns an error, either the entropy source failed
    and the pair is empty, or the scalar multiplication was refused and the
    pair holds the 32 random bytes as private key and no public key. *)
Theorem GenerateKey_pair_is_rebuilt_from_its_private_key
  (src : rand.Source) :
  match crypto.Curve25519GenerateKey src with
  | (kp, None) =>
      length (crypto.PrivateKey kp) = 32%nat
      /\ length (crypto.PublicKey kp) = 32%nat
      /\ crypto.Curve25519PrivateKey_PubKey (crypto.PrivateKey kp)
         = (crypto.PublicKey kp, None)
      /\ crypto.Curve25519GenerateFromPrivate (crypto.PrivateKey kp)
         = (kp, None)
  | (kp, Some e) =>
      (src = rand.Broken /\ e = ErrRandom
       /\ kp = crypto.mkCurve25519KeyPair [] [])
      \/ (e = ErrLowOrderPoint /\ crypto.PublicKey kp = []
          /\ length (crypto.PrivateKey kp) = 32%nat)
  end.
Proof.
  unfold crypto.Curve25519GenerateKey.
  destruct src as [r|]; cbn [rand.Read];
    [|left; split; [reflexivity|]; split; reflexivity].
  set (priv := map r (seq 0 (length (make crypto.Curve25519PrivateKeyLength)))).
  assert (Hpriv : length priv = 32%nat) by reflexivity.
  unfold crypto.Curve25519GenerateFromPrivate,
    crypto.Curve25519PrivateKey_PubKey.
  destruct (curve25519.X25519 priv curve25519.Basepoint) as [pub err] eqn:E.
  destruct err as [e|]; cbn [crypto.PrivateKey crypto.PublicKey].
  - right. apply X25519_error in E as [-> [[_ H]|[[_ H]|[-> _]]]].
    + exfalso. apply H. reflexivity.
    + exfalso. apply H. exact Hpriv.
    + split; [reflexivity|]. split; [reflexivity | exact Hpriv].
  - split; [exact Hpriv|].
    split; [exact (X25519_success_length _ _ _ E)|].
    split; [exact E|]. now rewrite E.
Qed.

(** X11.  A pair whose private key is the all-zero scalar loses it in a
    round trip through [PickleLibOlm] and [UnpickleLibOlm].  Before,
    [SharedSecret] is X25519 with the zero scalar; the pair that is read
    back has no private key, and its [SharedSecret] returns a length error
    and no bytes for every peer key. *)
Theorem SharedSecret_of_the_zero_scalar_is_lost_in_a_pickle_round_trip
  (pub peer : bytes) (c0 : crypto.Curve25519KeyPair) :
  let original := crypto.mkCurve25519KeyPair (make 32) pub in
  let pickled :=
    libolmpickle.Bytes
      (crypto.Curve25519KeyPair_PickleLibOlm original libolmpickle.NewEncoder) in
  let restored := fst (crypto.Curve25519KeyPair_UnpickleLibOlm c0 pickled) in
  crypto.Curve25519KeyPair_SharedSecret original peer
  = curve25519.X25519 (make 32) peer
  /\ crypto.PrivateKey restored = []
  /\ exists e,
       crypto.Curve25519KeyPair_SharedSecret restored peer = ([], Some e)
       /\ e <> ErrLowOrderPoint.
Proof.
  cbv zeta. split; [reflexivity|].
  unfold libolmpickle.Bytes. rewrite KeyPair_pickle.
  cbn [crypto.PublicKey crypto.PrivateKey libolmpickle.NewEncoder app].
  change (length (make 32) =? 32)%nat with true. cbv iota.
  rewrite <- (app_nil_r (make 32)).
  rewrite KeyPair_unpickle by (try apply fixed_field_length; reflexivity).
  unfold make at 1. rewrite zero_filled_repeat. cbn [fst crypto.PrivateKey].
  split; [reflexivity|].
  unfold crypto.Curve25519KeyPair_SharedSecret,
    crypto.Curve25519PrivateKey_SharedSecret.
  cbn [crypto.PrivateKey].
  unfold curve25519.X25519.
  generalize (curve25519.x25519ScalarMult [] peer). intros r.
  destruct (negb _).
  - eexists. split; [reflexivity | discriminate].
  - cbn [length Nat.eqb negb]. eexists.
    split; [reflexivity | discriminate].
Qed.

Lemma X25519_success scalar point out :
  curve25519.X25519 scalar point = (out, None) ->
  length scalar = 32%nat /\ length point = 32%nat /\ length out = 32%nat
  /\ bytes_Equal out (make 32) = false
  /\ out = curve25519.x25519ScalarMult scalar point.
Proof.
  unfold curve25519.X25519, curve25519.PointSize, curve25519.ScalarSize.
  pose proof (x25519ScalarMult_length scalar point) as Hlen.
  generalize dependent (curve25519.x25519ScalarMult scalar point). intros r Hr.
  destruct (Nat.eqb_spec (length point) 32) as [Hp|Hp]; cbn [negb];
    [|discriminate].
  destruct (Nat.eqb_spec (length scalar) 32) as [Hs|Hs]; cbn [negb];
    [|discriminate].
  destruct (bytes_Equal r (make 32)) eqn:E; [discriminate|].
  intros H. injection H as <-. repeat (split; [assumption|]). reflexivity.
Qed.

(** X14.  [Curve25519GenerateFromPrivate] on every private key.  Without
    error the key has 32 bytes and is stored unchanged in the pair, and the
    public key is [PubKey] of it, 32 bytes that are not all zero.  With an
    error the pair is empty, and the error is the size error for a key that
    has not 32 bytes or the refusal of the scalar multiplication for one
    that has. *)
Theorem GenerateFromPrivate_on_every_private_key (private : bytes) :
  match crypto.Curve25519GenerateFromPrivate private with
  | (kp, None) =>
      length private = 32%nat
      /\ crypto.PrivateKey kp = private
      /\ length (crypto.PublicKey kp) = 32%nat
      /\ bytes_Equal (crypto.PublicKey kp) (make 32) = false
      /\ crypto.Curve25519PrivateKey_PubKey private
         = (crypto.PublicKey kp, None)
  | (kp, Some e) =>
      kp = crypto.mkCurve25519KeyPair [] []
      /\ ((e = ErrInvalidPrivateKeySize /\ length private <> 32%nat)
          \/ (e = ErrLowOrderPoint /\ length private = 32%nat))
  end.
Proof.
  unfold crypto.Curve25519GenerateFromPrivate,
    crypto.Curve25519PrivateKey_PubKey.
  destruct (curve25519.X25519 private curve25519.Basepoint)
    as [pub err] eqn:E.
  destruct err as [e|]; cbn [crypto.PrivateKey crypto.PublicKey].
  - split; [reflexivity|].
    apply X25519_error in E as [_ [[_ H]|[[-> H]|[-> [_ H]]]]].
    + exfalso. apply H. reflexivity.
    + left. split; [reflexivity | exact H].
    + right. split; [reflexivity | exact H].
  - apply X25519_success in E as (Hs & _ & Hl & Hz & _).
    split; [exact Hs|]. split; [reflexivity|]. split; [exact Hl|].
    split; [exact Hz | reflexivity].
Qed.


(** ** Encoded identifiers *)

Lemma list_ind3 (A : Type) (P : list A -> Prop) :
  P [] -> (forall a, P [a]) -> (forall a b, P [a; b]) ->
  (forall a b c rest, P rest -> P (a :: b :: c :: rest)) ->
  forall l, P l.
Proof.
  intros H0 H1 H2 H3.
  fix IH 1. intros [|a [|b [|c rest]]].
  - exact H0.
  - apply H1.
  - apply H2.
  - apply H3, IH.
Qed.

Lemma Encode_length src :
  length (base64.Encode src) = base64.EncodedLen (length src).
Proof.
  induction src as [|a|a b|a b c rest IH] using list_ind3;
    try reflexivity.
  cbn [base64.Encode length]. rewrite IH. unfold base64.EncodedLen.
  replace (S (S (S (length rest)))) with (length rest + 1 * 3)%nat by lia.
  rewrite Nat.div_add, Nat.Div0.mod_add by lia. lia.
Qed.

Lemma index_nth_encodeStd i :
  (i < 64)%nat ->
  base64.index (nth i base64.encodeStd x00) base64.encodeStd = i.
Proof.
  intros H.
  assert (E : forallb (fun i =>
                Nat.eqb (base64.index (nth i base64.encodeStd x00)
                           base64.encodeStd) i) (seq 0 64) = true)
    by (vm_compute; reflexivity).
  rewrite forallb_forall in E.
  apply Nat.eqb_eq, E, in_seq. lia.
Qed.

Lemma sextet_inj v w sh :
  0 <= sh ->
  base64.sextet v sh = base64.sextet w sh ->
  (v / 2 ^ sh) mod 64 = (w / 2 ^ sh) mod 64.
Proof.
  intros Hsh. unfold base64.sextet.
  change 63 with (Z.ones 6).
  rewrite !Z.land_ones, !Z.shiftr_div_pow2 by lia.
  change (2 ^ 6) with 64.
  intros E. apply (f_equal (fun c => base64.index c base64.encodeStd)) in E.
  rewrite !index_nth_encodeStd in E
    by (apply Nat2Z.inj_lt; rewrite Z2Nat.id;
        [apply Z.mod_pos_bound | apply Z.mod_pos_bound]; lia).
  apply Z2Nat.inj in E; [exact E| |]; apply Z.mod_pos_bound; lia.
Qed.

Lemma lor_shiftl_add a n c :
  0 <= n -> 0 <= c < 2 ^ n ->
  Z.lor (Z.shiftl a n) c = a * 2 ^ n + c.
Proof.
  intros Hn Hc.
  rewrite <- Z.shiftl_mul_pow2 by exact Hn.
  rewrite <- Z.add_lor_land.
  replace (Z.land (Z.shiftl a n) c) with 0; [lia|].
  symmetry. apply Z.bits_inj'. intros i Hi.
  rewrite Z.land_spec, Z.bits_0.
  destruct (Z.ltb_spec i n) as [H|H].
  - rewrite Z.shiftl_spec_low by exact H. reflexivity.
  - replace c with (c mod 2 ^ n) by (apply Z.mod_small; exact Hc).
    rewrite Z.mod_pow2_bits_high by lia. apply andb_false_r.
Qed.

Lemma val3 a b c :
  Z.lor (Z.lor (Z.shiftl (Z_of_byte a) 16) (Z.shiftl (Z_of_byte b) 8))
        (Z_of_byte c)
  = Z_of_byte a * 65536 + Z_of_byte b * 256 + Z_of_byte c.
Proof.
  pose proof (Z_of_byte_range a). pose proof (Z_of_byte_range b).
  pose proof (Z_of_byte_range c).
  rewrite <- (Z.shiftl_shiftl _ 8 8) by lia.
  rewrite <- Z.shiftl_lor.
  rewrite (lor_shiftl_add _ 8 (Z_of_byte b)) by lia.
  rewrite (lor_shiftl_add _ 8 (Z_of_byte c)) by lia.
  change (2 ^ 8) with 256. lia.
Qed.

Lemma val2 a b :
  Z.lor (Z.shiftl (Z_of_byte a) 16) (Z.shiftl (Z_of_byte b) 8)
  = Z_of_byte a * 65536 + Z_of_byte b * 256.
Proof.
  pose proof (Z_of_byte_range a). pose proof (Z_of_byte_range b).
  rewrite <- (Z.shiftl_shiftl _ 8 8) by lia.
  rewrite <- Z.shiftl_lor.
  rewrite (lor_shiftl_add _ 8 (Z_of_byte b)) by lia.
  rewrite Z.shiftl_mul_pow2 by lia.
  change (2 ^ 8) with 256. lia.
Qed.

Lemma val1 a : Z.shiftl (Z_of_byte a) 16 = Z_of_byte a * 65536.
Proof. now rewrite Z.shiftl_mul_pow2 by lia. Qed.

Lemma Z_of_byte_inj a b : Z_of_byte a = Z_of_byte b -> a = b.
Proof.
  intros H. rewrite <- (byte_of_Z_of_byte a), <- (byte_of_Z_of_byte b).
  now rewrite H.
Qed.

Lemma sextets_sum v :
  0 <= v < 16777216 ->
  v = (v / 2 ^ 18) mod 64 * 262144 + (v / 2 ^ 12) mod 64 * 4096
      + (v / 2 ^ 6) mod 64 * 64 + (v / 2 ^ 0) mod 64.
Proof.
  intros H.
  change (2 ^ 18) with (64 * 64 * 64). change (2 ^ 12) with (64 * 64).
  change (2 ^ 6) with 64. change (2 ^ 0) with 1.
  rewrite Z.div_1_r.
  rewrite <- !Z.div_div by lia.
  pose proof (Z.div_mod v 64 ltac:(lia)) as H0.
  pose proof (Z.div_mod (v / 64) 64 ltac:(lia)) as H1.
  pose proof (Z.div_mod (v / 64 / 64) 64 ltac:(lia)) as H2.
  assert (H3 : v / 64 / 64 / 64 < 64)
    by (rewrite !Z.div_div by lia; apply Z.div_lt_upper_bound; lia).
  assert (H4 : 0 <= v / 64 / 64 / 64)
    by (rewrite !Z.div_div by lia; apply Z.div_pos; lia).
  rewrite (Z.mod_small (v / 64 / 64 / 64)) by lia.
  lia.
Qed.

(** A 24-bit group is determined by its four characters. *)
Lemma sextets_inj v w :
  0 <= v < 16777216 -> 0 <= w < 16777216 ->
  base64.sextet v 18 = base64.sextet w 18 ->
  base64.sextet v 12 = base64.sextet w 12 ->
  (v / 2 ^ 6) mod 64 = (w / 2 ^ 6) mod 64 ->
  (v / 2 ^ 0) mod 64 = (w / 2 ^ 0) mod 64 ->
  v = w.
Proof.
  intros Hv Hw E18 E12 E6 E0.
  apply sextet_inj in E18, E12; [|lia|lia].
  rewrite (sextets_sum v Hv), (sextets_sum w Hw).
  now rewrite E18, E12, E6, E0.
Qed.

Lemma low_sextet_zero k : (k * 64 / 2 ^ 0) mod 64 = 0.
Proof. change (2 ^ 0) with 1. now rewrite Z.div_1_r, Z.mod_mul. Qed.

Lemma mid_sextet_zero k : (k * 64 * 64 / 2 ^ 6) mod 64 = 0.
Proof. change (2 ^ 6) with 64. now rewrite Z.div_mul, Z.mod_mul. Qed.

Lemma Encode_inj : forall x y,
  base64.Encode x = base64.Encode y -> x = y.
Proof.
  induction x as [|a|a b|a b c rest IH] using list_ind3;
    intros [|a' [|b' [|c' rest']]]; cbn [base64.Encode]; intros E;
    try discriminate E; try reflexivity.
  - rewrite !val1 in E. injection E as E1 E2.
    pose proof (Z_of_byte_range a). pose proof (Z_of_byte_range a').
    assert (Z_of_byte a * 65536 = Z_of_byte a' * 65536).
    { apply sextets_inj; try assumption; try lia.
      - replace (Z_of_byte a * 65536) with (Z_of_byte a * 16 * 64 * 64) by lia.
        replace (Z_of_byte a' * 65536) with (Z_of_byte a' * 16 * 64 * 64)
          by lia.
        now rewrite !mid_sextet_zero.
      - replace (Z_of_byte a * 65536) with (Z_of_byte a * 1024 * 64) by lia.
        replace (Z_of_byte a' * 65536) with (Z_of_byte a' * 1024 * 64) by lia.
        now rewrite !low_sextet_zero. }
    f_equal. apply Z_of_byte_inj. lia.
  - rewrite !val2 in E. injection E as E1 E2 E3.
    pose proof (Z_of_byte_range a). pose proof (Z_of_byte_range a').
    pose proof (Z_of_byte_range b). pose proof (Z_of_byte_range b').
    assert (Z_of_byte a * 65536 + Z_of_byte b * 256
            = Z_of_byte a' * 65536 + Z_of_byte b' * 256).
    { apply sextets_inj; try assumption; try lia.
      - apply sextet_inj in E3; [exact E3 | lia].
      - replace (Z_of_byte a * 65536 + Z_of_byte b * 256)
          with ((Z_of_byte a * 1024 + Z_of_byte b * 4) * 64) by lia.
        replace (Z_of_byte a' * 65536 + Z_of_byte b' * 256)
          with ((Z_of_byte a' * 1024 + Z_of_byte b' * 4) * 64) by lia.
        now rewrite !low_sextet_zero. }
    f_equal; [|f_equal]; apply Z_of_byte_inj; lia.
  - rewrite !val3 in E. injection E as E1 E2 E3 E4 E5.
    apply IH in E5. subst rest'.
    pose proof (Z_of_byte_range a). pose proof (Z_of_byte_range a').
    pose proof (Z_of_byte_range b). pose proof (Z_of_byte_range b').
    pose proof (Z_of_byte_range c). pose proof (Z_of_byte_range c').
    assert (Z_of_byte a * 65536 + Z_of_byte b * 256 + Z_of_byte c
            = Z_of_byte a' * 65536 + Z_of_byte b' * 256 + Z_of_byte c').
    { apply sextets_inj; try assumption; try lia.
      - apply sextet_inj in E3; [exact E3 | lia].
      - apply sextet_inj in E4; [exact E4 | lia]. }
    f_equal; [|f_equal; [|f_equal]]; apply Z_of_byte_inj; lia.
Qed.

Lemma be32_inj a b :
  0 <= a < 2 ^ 32 -> 0 <= b < 2 ^ 32 -> be32 a = be32 b -> a = b.
Proof.
  intros Ha Hb E. unfold be32 in E. injection E as E0 E1 E2 E3.
  rewrite <- (uint32_bytes_roundtrip a Ha), <- (uint32_bytes_roundtrip b Hb).
  now rewrite E0, E1, E2, E3.
Qed.

(** X12.  [OneTimeKey.KeyIDEncoded] has 6 characters, and two one-time
    keys have the same encoded id exactly when they have the same id (a
    [uint32]). *)
Theorem KeyIDEncoded_is_six_characters_and_tells_ids_apart
  (c s : crypto.OneTimeKey) :
  0 <= crypto.ID c < 2 ^ 32 ->
  0 <= crypto.ID s < 2 ^ 32 ->
  length (crypto.OneTimeKey_KeyIDEncoded c) = 6%nat
  /\ (crypto.OneTimeKey_KeyIDEncoded c = crypto.OneTimeKey_KeyIDEncoded s
      <-> crypto.ID c = crypto.ID s).
Proof.
  intros Hc Hs. unfold crypto.OneTimeKey_KeyIDEncoded, base64.EncodeToString.
  split.
  - rewrite Encode_length. reflexivity.
  - split.
    + intros E. apply Encode_inj in E. now apply be32_inj.
    + intros ->. reflexivity.
Qed.

Lemma KeyIDEncoded_is_six_characters_and_tells_ids_apart_witness :
  let c := crypto.mkOneTimeKey 7 true (crypto.mkCurve25519KeyPair [] []) in
  let s := crypto.mkOneTimeKey 8 false (crypto.mkCurve25519KeyPair [] []) in
  length (crypto.OneTimeKey_KeyIDEncoded c) = 6%nat
  /\ (crypto.OneTimeKey_KeyIDEncoded c = crypto.OneTimeKey_KeyIDEncoded s
      <-> crypto.ID c = crypto.ID s).
Proof.
  apply (KeyIDEncoded_is_six_characters_and_tells_ids_apart
           (crypto.mkOneTimeKey 7 true (crypto.mkCurve25519KeyPair [] []))
           (crypto.mkOneTimeKey 8 false (crypto.mkCurve25519KeyPair [] []))).
  - cbn; lia.
  - cbn; lia.
Defined.

(** X13.  The base64 form of a public key determines the key:
    [Curve25519PublicKey.B64Encoded], [Curve25519KeyPair.B64Encoded] and
    [OneTimeKey.PublicKeyEncoded] give equal strings exactly for equal
    public keys.  The string has [EncodedLen] characters without padding,
    43 for a public key of 32 bytes. *)
Theorem B64Encoded_tells_public_keys_apart
  (k1 k2 : crypto.Curve25519KeyPair) (o1 o2 : crypto.OneTimeKey) :
  (crypto.Curve25519PublicKey_B64Encoded (crypto.PublicKey k1)
   = crypto.Curve25519PublicKey_B64Encoded (crypto.PublicKey k2)
   <-> crypto.PublicKey k1 = crypto.PublicKey k2)
  /\ (crypto.Curve25519KeyPair_B64Encoded k1
      = crypto.Curve25519KeyPair_B64Encoded k2
      <-> crypto.PublicKey k1 = crypto.PublicKey k2)
  /\ (crypto.OneTimeKey_PublicKeyEncoded o1
      = crypto.OneTimeKey_PublicKeyEncoded o2
      <-> crypto.PublicKey (crypto.Key o1) = crypto.PublicKey (crypto.Key o2))
  /\ length (crypto.Curve25519KeyPair_B64Encoded k1)
     = base64.EncodedLen (length (crypto.PublicKey k1))
  /\ (length (crypto.PublicKey k1) = 32%nat ->
      length (crypto.Curve25519KeyPair_B64Encoded k1) = 43%nat).
Proof.
  unfold crypto.OneTimeKey_PublicKeyEncoded,
    crypto.Curve25519KeyPair_B64Encoded,
    crypto.Curve25519PublicKey_B64Encoded, base64.EncodeToString.
  split; [|split; [|split; [|split]]].
  - split; [apply Encode_inj | now intros ->].
  - split; [apply Encode_inj | now intros ->].
  - split; [apply Encode_inj | now intros ->].
  - apply Encode_length.
  - intros H. rewrite Encode_length, H. reflexivity.
Qed.


(** ** The database: queries for several events, scanned events *)

Lemma Repeat_length n :
  String.length (strings.Repeat "?,"%string n) = (2 * n)%nat.
Proof.
  induction n as [|n IH]; [reflexivity|].
  cbn [strings.Repeat String.append String.length]. rewrite IH. lia.
Qed.

Lemma substring_cons m c s :
  String.substring 0 (S m) (String.String c s)
  = String.String c (String.substring 0 m s).
Proof. reflexivity. Qed.

Lemma Repeat_without_last_comma n :
  String.substring 0 (2 * n + 1) (strings.Repeat "?,"%string (S n))
  = String.append "?"%string (strings.Repeat ",?"%string n).
Proof.
  induction n as [|n IH]; [reflexivity|].
  replace (2 * S n + 1)%nat with (S (S (2 * n + 1))) by lia.
  cbn [strings.Repeat String.append] in IH |- *.
  rewrite !substring_cons, IH. reflexivity.
Qed.

Lemma placeholders_slice n :
  strings.slice_to (strings.Repeat "?,"%string n)
    (Z.of_nat (String.length (strings.Repeat "?,"%string n)) - 1)
  = match n with
    | O => Panics
    | S k => Returns (String.append "?"%string
                        (strings.Repeat ",?"%string k))
    end.
Proof.
  unfold strings.slice_to. rewrite Repeat_length.
  destruct n as [|k]; [reflexivity|].
  replace (Z.of_nat (2 * S k) - 1 <? 0) with false
    by (symmetry; apply Z.ltb_ge; lia).
  replace (Z.of_nat (2 * S k) <? Z.of_nat (2 * S k) - 1) with false
    by (symmetry; apply Z.ltb_ge; lia).
  cbn [orb].
  replace (Z.to_nat (Z.of_nat (2 * S k) - 1)) with (2 * k + 1)%nat by lia.
  now rewrite Repeat_without_last_comma.
Qed.

Lemma store_nonempty {V : Type} (m : database.smap (list V)) k v :
  Forall (fun entry => snd entry <> []) m -> v <> [] ->
  Forall (fun entry => snd entry <> []) (database.store m k v).
Proof.
  intros Hm Hv. induction Hm as [|[k' v'] rest H Hrest IH].
  - constructor; [exact Hv | constructor].
  - cbn [database.store]. destruct (String.eqb k' k).
    + constructor; [exact Hv | exact Hrest].
    + constructor; [exact H | exact IH].
Qed.

Lemma grouped_rows_nonempty (rows : list (String.string * database.EventRowID)) :
  forall output,
  Forall (fun entry => snd entry <> []) output ->
  Forall (fun entry => snd entry <> [])
    (fold_left
       (fun output tuple =>
          let old := match database.lookup output (fst tuple) with
                     | Some l => l
                     | None => []
                     end in
          database.store output (fst tuple) (old ++ [snd tuple]))
       rows output).
Proof.
  induction rows as [|tuple rows IH]; intros output H; [exact H|].
  cbn [fold_left]. apply IH. apply store_nonempty; [exact H|].
  intros E. now apply app_eq_nil in E as [_ E].
Qed.

Section DatabaseProperties.

Variable EventMessage EventSticker EventEncrypted RelReplace : String.string.
Variable Sprintf : String.string -> String.string -> String.string.
Variable reactionKey : option bytes -> option String.string.
Variable DB : Type.
Variable dberror : Type.
Variable Exec :
  DB -> String.string -> list database.any -> outcome (DB * option dberror).
Variable QueryMany :
  DB -> String.string -> list database.any
  -> outcome (DB * (list database.Event * option dberror)).
Variable Query :
  DB -> String.string -> list database.any
  -> outcome (DB * (list (String.string * database.EventRowID)
                    * option dberror)).
Variable DoTxn :
  forall S : Type,
    (DB * S -> outcome (DB * S * option dberror)) -> DB * S
    -> outcome (DB * S * option dberror).

Local Abbreviation buildMultiEventGetFunction :=
  (database.buildMultiEventGetFunction Sprintf).
Local Abbreviation GetEditRowIDs :=
  (database.GetEditRowIDs Sprintf DB dberror Query).
Local Abbreviation FillReactionCounts :=
  (database.FillReactionCounts Sprintf reactionKey DB dberror Exec QueryMany
     DoTxn).
Local Abbreviation FillLastEditRowIDs :=
  (database.FillLastEditRowIDs Sprintf DB dberror Exec Query DoTxn).
Local Abbreviation CanUseForPreview :=
  (database.Event_CanUseForPreview EventMessage EventSticker EventEncrypted
     RelReplace).
Local Abbreviation BumpsSortingTimestamp :=
  (database.Event_BumpsSortingTimestamp EventMessage EventSticker
     EventEncrypted RelReplace).

(** X15.  [buildMultiEventGetFunction] panics on an empty list of event
    ids (the slice bound [len(placeholders)-1] is -1).  For [n >= 1] ids it
    formats the query with [n] question marks separated by commas and
    returns [n + 1] parameters, the room id first and then the ids in their
    order. *)
Theorem buildMultiEventGetFunction_needs_an_event_id
  (roomID : String.string) (eventIDs : list String.string)
  (query : String.string) :
  buildMultiEventGetFunction roomID eventIDs query
  = match eventIDs with
    | [] => Panics
    | _ :: rest =>
        Returns (Sprintf query
                   (String.append "?"%string
                      (strings.Repeat ",?"%string (length rest))),
                 database.AnyString roomID
                   :: map database.AnyString eventIDs)
    end.
Proof.
  unfold database.buildMultiEventGetFunction. cbv zeta.
  rewrite placeholders_slice. now destruct eventIDs.
Qed.

(** X16.  [EventQuery.GetEditRowIDs] returns only when it was given at
    least one event id, and then no event of its result has an empty list
    of row ids.  It panics when it is given no id, and otherwise only when
    the query does. *)
Theorem GetEditRowIDs_gives_no_event_an_empty_list
  (db : DB) (roomID : String.string) (eventIDs : list String.string) :
  match GetEditRowIDs db roomID eventIDs with
  | Panics =>
      eventIDs = []
      \/ exists query params,
           buildMultiEventGetFunction roomID eventIDs
             database.getEventEditRowIDsQuery = Returns (query, params)
           /\ Query db query params = Panics
  | Returns (_, (output, _)) =>
      eventIDs <> []
      /\ Forall (fun entry => snd entry <> []) output
  end.
Proof.
  unfold database.GetEditRowIDs, database.buildMultiEventGetFunction.
  cbv zeta. rewrite placeholders_slice.
  destruct eventIDs as [|evtID rest]; [left; reflexivity|].
  cbn [length].
  destruct (Query db _ _) as [[db' [rows err]]|] eqn:E.
  - split; [discriminate|]. apply grouped_rows_nonempty. constructor.
  - right. eexists. eexists. split; [reflexivity | exact E].
Qed.

Lemma reactions_missing_without_ids (h : database.heap) :
  forall events i eventMap,
  database.reactions_missing h events i [] eventMap
  = if existsb (fun p : database.ptr =>
                  match p with
                  | None => true
                  | Some a => match database.Reactions (h a) with
                              | None => true
                              | Some _ => false
                              end
                  end) events
    then Panics else Returns ([], eventMap).
Proof.
  induction events as [|[a|] events IH]; intros i eventMap;
    cbn [database.reactions_missing existsb orb]; [reflexivity| |reflexivity].
  destruct (database.Reactions (h a)); cbn [orb]; [apply IH | reflexivity].
Qed.

Lemma edits_missing_without_ids (h : database.heap) :
  forall events i eventMap,
  database.edits_missing h events i [] eventMap
  = if existsb (fun p : database.ptr =>
                  match p with
                  | None => true
                  | Some a => database.LastEditRowID (h a) =? 0
                  end) events
    then Panics else Returns ([], eventMap).
Proof.
  induction events as [|[a|] events IH]; intros i eventMap;
    cbn [database.edits_missing existsb orb]; [reflexivity| |reflexivity].
  destruct (database.LastEditRowID (h a) =? 0); cbn [orb];
    [reflexivity | apply IH].
Qed.

(** X17.  [EventQuery.FillReactionCounts] fills no event.  Its list of ids
    is made with length 0, so the first event without reaction counts (or
    a nil event) makes it panic at [eventIDs[i]].  When every event has
    counts already, it calls [GetReactions] without ids, whose transaction
    function panics as soon as it is run; what the transaction returns
    otherwise is passed on with the events as they were. *)
Theorem FillReactionCounts_fills_no_event
  (db : DB) (h : database.heap) (roomID : String.string)
  (events : list database.ptr) :
  FillReactionCounts db h roomID events
  = if existsb (fun p : database.ptr =>
                  match p with
                  | None => true
                  | Some a => match database.Reactions (h a) with
                              | None => true
                              | Some _ => false
                              end
                  end) events
    then Panics
    else match DoTxn (database.smap database.GetReactionsResult)
                 (fun _ => Panics) (db, []) with
         | Panics => Panics
         | Returns (db', _, Some err) => Returns (db', h, Some err)
         | Returns (db', [], None) => Returns (db', h, None)
         | Returns (_, _ :: _, None) => Panics
         end.
Proof.
  unfold database.FillReactionCounts.
  rewrite reactions_missing_without_ids.
  destruct (existsb _ events); [reflexivity|].
  unfold database.GetReactions. cbn [fold_left].
  match goal with
  | |- context [DoTxn _ ?body _] =>
      change body
        with (fun _ : DB * database.smap database.GetReactionsResult =>
                @Panics (DB * database.smap database.GetReactionsResult
                         * option dberror))
  end.
  destruct (DoTxn _ _ _) as [[[db' result] [err|]]|]; try reflexivity.
  all: destruct result as [|[evtID res] rest]; reflexivity.
Qed.

(** X18.  [EventQuery.FillLastEditRowIDs] fills no event.  The first
    event whose [LastEditRowID] is 0 (or a nil event) makes it panic at
    [eventIDs[i]]; when there is none, the function that it hands to
    [DoTxn] panics as soon as it is run, since [GetEditRowIDs] gets no
    ids. *)
Theorem FillLastEditRowIDs_fills_no_event
  (db : DB) (h : database.heap) (roomID : String.string)
  (events : list database.ptr) :
  FillLastEditRowIDs db h roomID events
  = if existsb (fun p : database.ptr =>
                  match p with
                  | None => true
                  | Some a => database.LastEditRowID (h a) =? 0
                  end) events
    then Panics
    else DoTxn database.heap (fun _ => Panics) (db, h).
Proof.
  unfold database.FillLastEditRowIDs.
  rewrite edits_missing_without_ids.
  destruct (existsb _ events); reflexivity.
Qed.

(** X19.  An event that [CanUseForPreview] also [BumpsSortingTimestamp],
    whatever the four constants of package [event] are. *)
Theorem CanUseForPreview_implies_BumpsSortingTimestamp (e : database.Event) :
  CanUseForPreview e = true -> BumpsSortingTimestamp e = true.
Proof.
  unfold database.Event_CanUseForPreview,
    database.Event_BumpsSortingTimestamp.
  destruct (String.eqb (database.Type_ e) EventMessage),
    (String.eqb (database.Type_ e) EventSticker),
    (String.eqb (database.Type_ e) EventEncrypted),
    (negb (String.eqb (database.RelationType e) RelReplace));
    cbn [orb andb]; intros H; try reflexivity; try discriminate H.
  all: now rewrite andb_false_r in H.
Qed.

(** X20.  [Event.Scan] takes [RelationType] from the column [relates_to],
    not from [relation_type].  So a message read from a row counts as usable
    for a preview, and bumps the sorting timestamp, whenever the id it
    relates to is not the text of [RelReplace] itself, also when the row
    says that it is an edit. *)
Theorem Scan_makes_an_edit_usable_for_preview
  (e : database.Event) (s : database.Scanned) :
  database.c_type s = EventMessage ->
  database.String_ (database.c_relates_to s) <> RelReplace ->
  exists e',
    database.Event_Scan dberror e (inl s) = (Some e', None)
    /\ database.RelationType e'
       = database.String_ (database.c_relates_to s)
    /\ CanUseForPreview e' = true
    /\ BumpsSortingTimestamp e' = true.
Proof.
  intros Ht Hr. eexists. split; [reflexivity|]. split; [reflexivity|].
  unfold database.Event_CanUseForPreview,
    database.Event_BumpsSortingTimestamp.
  cbn [database.Type_ database.RelationType database.DecryptedType].
  rewrite Ht, String.eqb_refl.
  apply String.eqb_neq in Hr. rewrite Hr. split; reflexivity.
Qed.

End DatabaseProperties.

Local Open Scope string_scope.

Lemma CanUseForPreview_implies_BumpsSortingTimestamp_witness :
  let e :=
    database.mkEvent 1 1 "!room" "$event" "@user" "m.room.encrypted" None 0
      None None "m.sticker" None "" "" "" "" "" None 0 in
  database.Event_BumpsSortingTimestamp
    "m.room.message" "m.sticker" "m.room.encrypted" "m.replace" e = true.
Proof.
  apply CanUseForPreview_implies_BumpsSortingTimestamp. reflexivity.
Defined.

Lemma Scan_makes_an_edit_usable_for_preview_witness :
  let e :=
    database.mkEvent 0 0 "" "" "" "" None 0 None None "" None "" "" "" ""
      "" None 0 in
  let null := database.mkNullString "" false in
  let s :=
    database.mkScanned 7 (-1) "!room" "$edit" "@user" "m.room.message" None
      1700000000000 None None null None null
      (database.mkNullString "$target" true)
      (database.mkNullString "m.replace" true) null null None
      (database.mkNullInt64 0 false) in
  exists e',
    database.Event_Scan unit e (inl s) = (Some e', None)
    /\ database.RelationType e'
       = database.String_ (database.c_relates_to s)
    /\ database.Event_CanUseForPreview
         "m.room.message" "m.sticker" "m.room.encrypted" "m.replace" e'
       = true
    /\ database.Event_BumpsSortingTimestamp
         "m.room.message" "m.sticker" "m.room.encrypted" "m.replace" e'
       = true.
Proof.
  apply Scan_makes_an_edit_usable_for_preview.
  - reflexivity.
  - apply String.eqb_neq. reflexivity.
Defined.

Local Close Scope string_scope.


(** ** The database: counting reactions *)

Lemma lookup_store_same {V : Type} (m : database.smap V) k v :
  database.lookup (database.store m k v) k = Some v.
Proof.
  induction m as [|[k' v'] m IH]; cbn [database.store database.lookup].
  - now rewrite String.eqb_refl.
  - destruct (String.eqb k' k) eqn:E; cbn [database.lookup].
    + now rewrite String.eqb_refl.
    + now rewrite E.
Qed.

Lemma lookup_store_other {V : Type} (m : database.smap V) k k' v :
  k <> k' ->
  database.lookup (database.store m k v) k' = database.lookup m k'.
Proof.
  intros Hk. induction m as [|[k0 v0] m IH];
    cbn [database.store database.lookup].
  - apply String.eqb_neq in Hk. now rewrite Hk.
  - destruct (String.eqb_spec k0 k) as [->|Hk0]; cbn [database.lookup].
    + apply String.eqb_neq in Hk. now rewrite Hk.
    + now rewrite IH.
Qed.

Lemma total_store (counts : database.smap Z) key :
  fold_right Z.add 0
    (map snd (database.store counts key
                (match database.lookup counts key with
                 | Some n => n
                 | None => 0
                 end + 1)))
  = fold_right Z.add 0 (map snd counts) + 1.
Proof.
  induction counts as [|[k n] counts IH];
    cbn [database.store database.lookup map snd fold_right]; [lia|].
  destruct (String.eqb k key); cbn [map snd fold_right]; lia.
Qed.

Section Reactions.

Variable reactionKey : option bytes -> option String.string.

Local Abbreviation count_reactions := (database.count_reactions reactionKey).

(** The events that relate to [id], and those of them with a key. *)
Local Abbreviation related id events :=
  (filter (fun evt => String.eqb (database.RelatesTo evt) id) events).
Local Abbreviation keyed events :=
  (filter (fun evt => match reactionKey (database.Content evt) with
                      | Some _ => true
                      | None => false
                      end) events).
Local Abbreviation total counts := (fold_right Z.add 0 (map snd counts)).

Lemma count_reactions_spec :
  forall (events : list database.Event)
         (result : database.smap database.GetReactionsResult),
  match count_reactions events result with
  | Returns result' =>
      (forall evt, In evt events ->
         database.lookup result (database.RelatesTo evt) <> None)
      /\ forall id,
        match database.lookup result id with
        | None => database.lookup result' id = None
        | Some r =>
            exists r',
              database.lookup result' id = Some r'
              /\ database.Events r'
                 = database.Events r ++ related id events
              /\ match database.Counts r with
                 | None => database.Counts r' = None
                 | Some c =>
                     exists c',
                       database.Counts r' = Some c'
                       /\ total c'
                          = total c
                            + Z.of_nat (length (keyed (related id events)))
                 end
        end
  | Panics =>
      (exists evt, In evt events
                   /\ database.lookup result (database.RelatesTo evt) = None)
      \/ (exists id r, database.lookup result id = Some r
                       /\ database.Counts r = None)
  end.
Proof.
  induction events as [|evt events IH]; intros result.
  - cbn [database.count_reactions filter length app].
    split; [intros evt []|]. intros id.
    destruct (database.lookup result id) as [r|]; [|reflexivity].
    exists r. split; [reflexivity|]. split; [now rewrite app_nil_r|].
    destruct (database.Counts r) as [c|]; [|reflexivity].
    exists c. split; [reflexivity | cbn; lia].
  - cbn [database.count_reactions].
    destruct (database.lookup result (database.RelatesTo evt))
      as [dest|] eqn:Hdest.
    2:{ left. exists evt. split; [now left | exact Hdest]. }
    set (t := database.RelatesTo evt) in *.
    destruct (reactionKey (database.Content evt)) as [key|] eqn:Hkey.
    + destruct (database.Counts dest) as [counts|] eqn:Hcounts.
      2:{ right. exists t, dest. split; assumption. }
      set (r1 := database.mkGetReactionsResult _ _).
      specialize (IH (database.store result t r1)).
      destruct (count_reactions events (database.store result t r1))
        as [result'|].
      * destruct IH as [Hall IH]. split.
        { intros evt' [<-|Hin]; [fold t; now rewrite Hdest|].
          specialize (Hall evt' Hin).
          destruct (String.eqb_spec t (database.RelatesTo evt')) as [E|E].
          - rewrite <- E, Hdest. discriminate.
          - now rewrite lookup_store_other in Hall. }
        intros id. specialize (IH id).
        destruct (String.eqb_spec t id) as [<-|Hid].
        -- rewrite lookup_store_same in IH. rewrite Hdest.
           destruct IH as (r' & Hr' & He & Hc). exists r'.
           split; [exact Hr'|].
           cbn [filter]. fold t. rewrite String.eqb_refl.
           split.
           ++ rewrite He. subst r1. cbn [database.Events].
              now rewrite <- app_assoc.
           ++ rewrite Hcounts. subst r1. cbn [database.Counts] in Hc.
              destruct Hc as (c' & Hc' & Ht). exists c'.
              split; [exact Hc'|]. rewrite Ht, total_store.
              cbn [filter]. rewrite Hkey. cbn [length]. lia.
        -- rewrite lookup_store_other in IH by exact Hid.
           cbn [filter]. fold t.
           apply String.eqb_neq in Hid. rewrite Hid. exact IH.
      * destruct IH as [(evt' & Hin & Hnone)|(id & r & Hr & Hc)].
        -- left. exists evt'. split; [now right|].
           destruct (String.eqb_spec t (database.RelatesTo evt')) as [E|E].
           ++ rewrite <- E, lookup_store_same in Hnone. discriminate.
           ++ now rewrite lookup_store_other in Hnone.
        -- right. destruct (String.eqb_spec t id) as [<-|E].
           ++ rewrite lookup_store_same in Hr. injection Hr as <-.
              subst r1. discriminate Hc.
           ++ rewrite lookup_store_other in Hr by exact E.
              exists id, r. split; assumption.
    + set (r1 := database.mkGetReactionsResult _ _).
      specialize (IH (database.store result t r1)).
      destruct (count_reactions events (database.store result t r1))
        as [result'|].
      * destruct IH as [Hall IH]. split.
        { intros evt' [<-|Hin]; [fold t; now rewrite Hdest|].
          specialize (Hall evt' Hin).
          destruct (String.eqb_spec t (database.RelatesTo evt')) as [E|E].
          - rewrite <- E, Hdest. discriminate.
          - now rewrite lookup_store_other in Hall. }
        intros id. specialize (IH id).
        destruct (String.eqb_spec t id) as [<-|Hid].
        -- rewrite lookup_store_same in IH. rewrite Hdest.
           destruct IH as (r' & Hr' & He & Hc). exists r'.
           split; [exact Hr'|].
           cbn [filter]. fold t. rewrite String.eqb_refl.
           split.
           ++ rewrite He. subst r1. cbn [database.Events].
              now rewrite <- app_assoc.
           ++ subst r1. cbn [database.Counts] in Hc.
              destruct (database.Counts dest) as [c|]; [|exact Hc].
              destruct Hc as (c' & Hc' & Ht). exists c'.
              split; [exact Hc'|]. rewrite Ht.
              cbn [filter]. now rewrite Hkey.
        -- rewrite lookup_store_other in IH by exact Hid.
           cbn [filter]. fold t.
           apply String.eqb_neq in Hid. rewrite Hid. exact IH.
      * destruct IH as [(evt' & Hin & Hnone)|(id & r & Hr & Hc)].
        -- left. exists evt'. split; [now right|].
           destruct (String.eqb_spec t (database.RelatesTo evt')) as [E|E].
           ++ rewrite <- E, lookup_store_same in Hnone. discriminate.
           ++ now rewrite lookup_store_other in Hnone.
        -- right. destruct (String.eqb_spec t id) as [<-|E].
           ++ rewrite lookup_store_same in Hr. injection Hr as <-.
              subst r1. cbn [database.Counts] in Hc.
              exists t, dest. split; assumption.
           ++ rewrite lookup_store_other in Hr by exact E.
              exists id, r. split; assumption.
Qed.

Lemma requested_ids_lookup (eventIDs : list String.string) :
  forall (m : database.smap database.GetReactionsResult) id,
  database.lookup
    (fold_left
       (fun result evtID =>
          database.store result evtID
            (database.mkGetReactionsResult [] (Some [])))
       eventIDs m) id
  = if existsb (String.eqb id) eventIDs
    then Some (database.mkGetReactionsResult [] (Some []))
    else database.lookup m id.
Proof.
  induction eventIDs as [|a eventIDs IH]; intros m id;
    cbn [fold_left existsb]; [reflexivity|].
  rewrite IH. destruct (existsb (String.eqb id) eventIDs);
    [now rewrite orb_true_r|]. rewrite orb_false_r.
  destruct (String.eqb_spec id a) as [->|E].
  - apply lookup_store_same.
  - apply lookup_store_other. congruence.
Qed.

(** X21.  The reaction counts of [EventQuery.GetReactions] add up.  On the
    result that it builds for the requested ids, the loop over the events
    that the query returned panics exactly when some event relates to an
    id that was not requested.  Otherwise the result has an entry for the
    requested ids and for no other id, and the entry of an id lists the
    events that relate to it, in their order, with counts whose sum is the
    number of those events in which a reaction key was found. *)
Theorem GetReactions_counts_add_up
  (eventIDs : list String.string) (events : list database.Event) :
  let result :=
    fold_left
      (fun result evtID =>
         database.store result evtID
           (database.mkGetReactionsResult [] (Some [])))
      eventIDs [] in
  match count_reactions events result with
  | Returns result' =>
      (forall evt, In evt events -> In (database.RelatesTo evt) eventIDs)
      /\ forall id,
           if existsb (String.eqb id) eventIDs
           then exists r' c',
                  database.lookup result' id = Some r'
                  /\ database.Events r' = related id events
                  /\ database.Counts r' = Some c'
                  /\ total c' = Z.of_nat (length (keyed (related id events)))
           else database.lookup result' id = None
  | Panics =>
      exists evt, In evt events /\ ~ In (database.RelatesTo evt) eventIDs
  end.
Proof.
  intros result.
  assert (Hin : forall id,
            database.lookup result id <> None <-> In id eventIDs).
  { intros id. subst result. rewrite requested_ids_lookup.
    destruct (existsb (String.eqb id) eventIDs) eqn:E.
    - apply existsb_exists in E as (x & Hx & E).
      apply String.eqb_eq in E. subst x. split; [easy | discriminate].
    - cbn [database.lookup]. split; [congruence|]. intros H. exfalso.
      assert (existsb (String.eqb id) eventIDs = true); [|congruence].
      apply existsb_exists. exists id. split; [exact H|].
      apply String.eqb_refl. }
  pose proof (count_reactions_spec events result) as H.
  destruct (count_reactions events result) as [result'|].
  - destruct H as [Hall H]. split.
    + intros evt Hevt. apply Hin, Hall, Hevt.
    + intros id. specialize (H id). subst result.
      rewrite requested_ids_lookup in H.
      destruct (existsb (String.eqb id) eventIDs); [|exact H].
      destruct H as (r' & Hr' & He & c' & Hc' & Ht).
      exists r', c'. cbn [database.Events app] in He.
      cbn [map fold_right] in Ht.
      split; [exact Hr'|]. split; [exact He|]. split; [exact Hc'|].
      rewrite Ht. lia.
  - destruct H as [(evt & Hevt & Hnone)|(id & r & Hr & Hc)].
    + exists evt. split; [exact Hevt|]. intros HIn.
      apply Hin in HIn. contradiction.
    + exfalso. subst result. rewrite requested_ids_lookup in Hr.
      destruct (existsb (String.eqb id) eventIDs).
      * injection Hr as <-. discriminate Hc.
      * discriminate Hr.
Qed.

End Reactions.


(* ================================================================== *)
(** * Test vectors

    The primitives against the documents that define them, and the
    scenarios of the specification. *)

(** FIPS 180-4: SHA-256 of "abc". *)
Example sha256_abc :
  hex.equals (sha256.Sum256 (String.list_byte_of_string "abc"%string))
    "ba7816bf8f01cfea414140de5dae2223b00361a396177a9cb410ff61f20015ad"
  = true.
Proof. vm_compute. reflexivity. Qed.

(** RFC 4231, test case 2. *)
Example hmac_sha256_rfc4231 :
  hex.equals
    (crypto.HMACSHA256
       (String.list_byte_of_string "Jefe"%string)
       (String.list_byte_of_string "what do ya want for nothing?"%string))
    "5bdcc146bf60754e6a042426089575c75a003f089d2739839dec58b964ec3843"
  = true.
Proof. vm_compute. reflexivity. Qed.

(** RFC 5869, test case 1: the 42 bytes read from the reader are the
    output keying material, and 22 bytes of T(2) stay buffered. *)
Example hkdf_sha256_rfc5869 :
  let ikm := hex.decode "0b0b0b0b0b0b0b0b0b0b0b0b0b0b0b0b0b0b0b0b0b0b" in
  let salt := hex.decode "000102030405060708090a0b0c" in
  let info := hex.decode "f0f1f2f3f4f5f6f7f8f9" in
  let okm :=
    "3cb25f25faacd57a90434f64d0362f2a2d2d0a90cf1a5a4c5db02d56ecc4c5bf34007208d5b887185865"%string in
  let '(f, p, (n, err)) :=
    hkdf.ReadFull (crypto.HKDFSHA256 ikm salt info) (make 42) in
  hex.equals p okm
  && (n =? 42)%nat
  && match err with
     | None => true
     | Some _ => false
     end
  && (length (hkdf.buf f) =? 22)%nat
  && hex.equals (rfc5869.HKDF ikm salt info 42) okm
  = true.
Proof. vm_compute. reflexivity. Qed.

(** FIPS-197, appendix C.3: AES-256 on one block, and back. *)
Example aes256_fips197 :
  let key :=
    hex.decode
      "000102030405060708090a0b0c0d0e0f101112131415161718191a1b1c1d1e1f" in
  let plain := "00112233445566778899aabbccddeeff"%string in
  let cipher := "8ea2b7ca516745bfeafc49904b496089"%string in
  hex.equals (aes.Encrypt (aes.expandKey key) (hex.decode plain)) cipher
  && hex.equals (aes.Decrypt (aes.expandKey key) (hex.decode cipher)) plain
  = true.
Proof. vm_compute. reflexivity. Qed.

(** NIST SP 800-38A, F.2.5: CBC-AES256 on two blocks. *)
Example cbc_aes256_sp800_38a :
  let key :=
    hex.decode
      "603deb1015ca71be2b73aef0857d77811f352c073b6108d72d9810a30914dff4" in
  let iv := hex.decode "000102030405060708090a0b0c0d0e0f" in
  let plain :=
    hex.decode
      "6bc1bee22e409f96e93d7e117393172aae2d8a571e03ac9c9eb76fac45af8e51" in
  hex.equals (cbc.encryptBlocks 2 (aes.expandKey key) iv plain)
    "f58c4c04d6e5f1ba779eabfb5f7bfbd69cfc4e967edb808d679f777bc6702c7d"
  = true.
Proof. vm_compute. reflexivity. Qed.

Ltac eval_X25519 :=
  cbv zeta;
  unfold crypto.Curve25519KeyPair_SharedSecret,
    crypto.Curve25519PrivateKey_SharedSecret,
    crypto.Curve25519PrivateKey_PubKey;
  cbn [crypto.PrivateKey];
  rewrite !fast_X25519;
  vm_cast_no_check (eq_refl true).

(** RFC 7748, section 6.1: the public key of Alice, and the secret that
    she and Bob share, computed from either side. *)
Example X25519_rfc7748_shared_secret :
  let a :=
    hex.decode
      "77076d0a7318a57d3c16c17251b26645df4c2f87ebc0992ab177fba51db92c2a" in
  let b :=
    hex.decode
      "5dab087e624a8a4b79e17f8b83800ee66f3bb1292618b6fd1c2f8b27ff88e0eb" in
  let A :=
    "8520f0098930a754748b7ddcb43ef75a0dbf3a0d26381af4eba4a98eaa9b4e6a"%string in
  let B :=
    "de9edb7d7b7dc1b4d35b61c2ece435373f8343c85b78674dadfc7e146f882b4f"%string in
  let K :=
    "4a5d9d5ba4ce2de1728e3bf480350f25e07e21c947d19e3376f09b3c1e161742"%string in
  hex.returns (crypto.Curve25519PrivateKey_PubKey a) A
  && hex.returns
       (crypto.Curve25519KeyPair_SharedSecret
          (crypto.mkCurve25519KeyPair a (hex.decode A)) (hex.decode B)) K
  && hex.returns
       (crypto.Curve25519KeyPair_SharedSecret
          (crypto.mkCurve25519KeyPair b (hex.decode B)) (hex.decode A)) K
  = true.
Proof. eval_X25519. Qed.

(** The scenario of the specification: the all-zero private scalar has a
    fixed, known public key. *)
Example X25519_zero_scalar_public_key :
  hex.returns (crypto.Curve25519PrivateKey_PubKey (make 32))
    "2fe57da347cd62431528daac5fbb290730fff684afc4cfc2ed90995f58cb3b74"
  = true.
Proof. exact PubKey_of_the_zero_scalar. Qed.

(** The peer key 1, a point of order 4, is refused like the zero point. *)
Example X25519_refuses_the_point_of_order_4 :
  match
    crypto.Curve25519PrivateKey_SharedSecret
      (hex.decode
         "77076d0a7318a57d3c16c17251b26645df4c2f87ebc0992ab177fba51db92c2a")
      (x01 :: make 31)
  with
  | (_, Some ErrLowOrderPoint) => true
  | _ => false
  end = true.
Proof. eval_X25519. Qed.

(** RFC 4648, section 10, without the padding. *)
Example base64_rfc4648 :
  bytes_Equal
    (base64.EncodeToString (String.list_byte_of_string "foobar"%string))
    (String.list_byte_of_string "Zm9vYmFy"%string)
  && bytes_Equal
       (base64.EncodeToString (String.list_byte_of_string "fooba"%string))
       (String.list_byte_of_string "Zm9vYmE"%string)
  && bytes_Equal
       (base64.EncodeToString (String.list_byte_of_string "foob"%string))
       (String.list_byte_of_string "Zm9vYg"%string)
  = true.
Proof. vm_compute. reflexivity. Qed.

(** The id 1 of a one-time key is "AAAAAQ". *)
Example KeyIDEncoded_of_1 :
  bytes_Equal
    (crypto.OneTimeKey_KeyIDEncoded
       (crypto.mkOneTimeKey 1 false (crypto.mkCurve25519KeyPair [] [])))
    (String.list_byte_of_string "AAAAAQ"%string)
  = true.
Proof. vm_compute. reflexivity. Qed.
